(** * ProcessGameState: filters and transformations over a match table

    A shallow embedding of [src/process_game_state.py].  The class wraps a
    pandas [DataFrame]; its methods are modelled over an explicit object
    store, so that "returns a new table" and "leaves the input unchanged"
    are statements about store locations, and failures are Python
    exceptions threaded through a small state-and-exception monad.

    The pandas and shapely operations the methods call are modelled here
    from the behaviour of those libraries:
    - a [DataFrame] is an ordered list of column labels and a list of
      labelled rows (the index label of a row is an integer);
    - boolean indexing [df[mask]] keeps the rows whose mask entry is true,
      with their index labels;
    - assigning a [Series] to a column aligns it on index labels;
    - [Polygon.contains] is the ray-crossing point location of GEOS, true
      only for points of the interior.
    Numbers are exact integers: the coordinates of the match data and of
    the polygons used with it are integral, and rounding is out of scope. *)

From Stdlib Require Import ZArith String List Bool Lia Sorted.
From stdpp Require Import base option list strings gmap.

#[local] Set Warnings "-clear-no-such-hyp".

Local Open Scope string_scope.
Local Open Scope list_scope.
Local Open Scope stdpp_scope.

(** ** Python values held in table cells *)

Inductive scalar : Type :=
  | PNone
  | PNaN
  | PInt (n : Z)
  | PStr (s : string).

(** An element of a list cell: a scalar, or a flat [dict] (an inventory
    item record). *)
Inductive obj : Type :=
  | Atom (a : scalar)
  | Dict (d : gmap string scalar).

Inductive value : Type :=
  | Scalar (a : scalar)
  | PList (l : list obj).

#[global] Instance scalar_eq_dec : EqDecision scalar.
Proof. solve_decision. Defined.
#[global] Instance obj_eq_dec : EqDecision obj.
Proof. solve_decision. Defined.
#[global] Instance value_eq_dec : EqDecision value.
Proof. solve_decision. Defined.

(** Python exceptions raised by the modelled operations.
    [ReferenceError] stands for a dereference of a location that holds no
    object; no method reaches it from a live reference. *)
Inductive exn : Type :=
  | KeyError (k : string)
  | TypeError
  | ValueError
  | ReferenceError.

#[global] Instance exn_eq_dec : EqDecision exn.
Proof. solve_decision. Defined.

Inductive outcome (A : Type) : Type :=
  | Ret (a : A)
  | Raise (e : exn).
Arguments Ret {A} a.
Arguments Raise {A} e.

#[global] Instance outcome_ret : MRet outcome := λ A a, Ret a.
#[global] Instance outcome_bind : MBind outcome := λ A B f m,
  match m with
  | Ret a => f a
  | Raise e => Raise e
  end.

(** [a == b] on cell values.  [NaN] is unequal to everything, itself
    included; any other value is equal to itself only. *)
Definition py_eq (a b : value) : bool :=
  match a with
  | Scalar PNaN => false
  | _ => bool_decide (a = b)
  end.

Definition py_ne (a b : value) : bool := negb (py_eq a b).

(** ** Tables *)

(** A row stores its cells by column label. *)
Abbreviation Row := (gmap string value).

Record DataFrame : Type := mkDF {
  columns : list string;
  rows : list (Z * Row)
}.

#[global] Instance DataFrame_eq_dec : EqDecision DataFrame.
Proof. solve_decision. Defined.

(** The frame invariant of pandas: every row has a cell for each column
    label and for nothing else. *)
Definition wf_row (cols : list string) (r : Row) : Prop :=
  dom r = (list_to_set cols : gset string).

Definition wf (t : DataFrame) : Prop :=
  Forall (λ lr, wf_row (columns t) lr.2) (rows t).

(** A cell read; a cell missing from a row reads as [NaN], the filler
    pandas uses. *)
Definition cell (r : Row) (c : string) : value :=
  default (Scalar PNaN) (r !! c).

(** A row handed out by [iterrows] or [apply(axis=1)]: a [Series] named by
    the index label, holding one entry per column label. *)
Definition Series : Type := list (string * value).

Definition row_series (cols : list string) (r : Row) : Series :=
  map (λ c, (c, cell r c)) cols.

(** [row[key]] *)
Fixpoint series_getitem (row : Series) (key : string) : outcome value :=
  match row with
  | [] => Raise (KeyError key)
  | (c, v) :: rest => if decide (c = key) then Ret v else series_getitem rest key
  end.

(** [df[mask]] on the rows: positions whose mask entry is true. *)
Fixpoint select {A : Type} (mask : list bool) (l : list A) : list A :=
  match mask, l with
  | b :: mask', x :: l' => if b then x :: select mask' l' else select mask' l'
  | _, _ => []
  end.

(** The frame [df[mask]]. *)
Definition filtered (t : DataFrame) (mask : list bool) : DataFrame :=
  mkDF (columns t) (select mask (rows t)).

(** The cells of [df[key]]. *)
Definition column_cells (t : DataFrame) (key : string) : list value :=
  map (λ lr, cell lr.2 key) (rows t).

(** The rows [df.iterrows()] hands out. *)
Definition iterated (t : DataFrame) : list (Z * Series) :=
  map (λ lr, (lr.1, row_series (columns t) lr.2)) (rows t).

(** The frame [pd.DataFrame(data)]. *)
Definition framed (data : list (Z * Series)) : DataFrame :=
  mkDF (match data with [] => [] | (_, row) :: _ => row.*1 end)
       (map (λ nr, (nr.1, list_to_map nr.2)) data).

(** ** The object store and the monad of methods *)

Definition loc : Type := nat.
Definition Store : Type := list DataFrame.
Definition M (A : Type) : Type := Store → outcome A * Store.

#[global] Instance M_ret : MRet M := λ A a s, (Ret a, s).
#[global] Instance M_bind : MBind M := λ A B f m s,
  match m s with
  | (Ret a, s') => f a s'
  | (Raise e, s') => (Raise e, s')
  end.

(** A pure computation that may raise. *)
Definition lift {A : Type} (o : outcome A) : M A := λ s, (o, s).

Definition load (l : loc) : M DataFrame := λ s,
  match s !! l with
  | Some t => (Ret t, s)
  | None => (Raise ReferenceError, s)
  end.

Definition alloc (t : DataFrame) : M loc := λ s, (Ret (length s), s ++ [t]).

Definition store (l : loc) (t : DataFrame) : M unit := λ s, (Ret tt, <[l := t]> s).

(** ** pandas operations *)

(** [df.copy()] *)
Definition df_copy (df : loc) : M loc :=
  t ← load df; alloc t.

(** [df.columns] *)
Definition df_columns (df : loc) : M (list string) :=
  t ← load df; mret (columns t).

Definition drop_columns (labels : gset string) (t : DataFrame) : DataFrame :=
  mkDF (filter (λ c, c ∉ labels) (columns t))
       (map (λ lr, (lr.1, filter (λ kv, kv.1 ∉ labels) lr.2)) (rows t)).

(** [df.drop(columns=labels, inplace=True)]: a label that is not a column
    is a [KeyError]; otherwise the object itself loses the columns. *)
Definition df_drop_inplace (df : loc) (labels : gset string) : M unit :=
  t ← load df;
  match elements (labels ∖ list_to_set (columns t)) with
  | [] => store df (drop_columns labels t)
  | k :: _ => lift (Raise (KeyError k))
  end.

(** [df[key]] for a column label: the cells of the column, in row order. *)
Definition df_getitem (df : loc) (key : string) : M (list value) :=
  t ← load df;
  if decide (key ∈ columns t)
  then mret (column_cells t key)
  else lift (Raise (KeyError key)).

(** [df[mask]] for a boolean mask over the rows: a new frame. *)
Definition df_getitem_mask (df : loc) (mask : list bool) : M loc :=
  t ← load df; alloc (filtered t mask).

(** [df.iterrows()] *)
Definition df_iterrows (df : loc) : M (list (Z * Series)) :=
  t ← load df; mret (iterated t).

(** [df.apply(f, axis=1)] with a boolean-valued [f]. *)
Definition df_apply (df : loc) (f : Series → outcome bool) : M (list bool) :=
  t ← load df;
  lift (mapM f (iterated t).*2).

(** The entry of [pd.Series(values)] at an index label: the fresh series
    is labelled 0, 1, ...; a label outside that range finds nothing and
    the aligned cell is [NaN]. *)
Definition aligned (values : list value) (label : Z) : value :=
  if decide (0 ≤ label)%Z
  then default (Scalar PNaN) (values !! Z.to_nat label)
  else Scalar PNaN.

Definition set_column (key : string) (values : list value) (t : DataFrame) : DataFrame :=
  mkDF (if decide (key ∈ columns t) then columns t else columns t ++ [key])
       (map (λ lr, (lr.1, <[key := aligned values lr.1]> lr.2)) (rows t)).

(** [df[key] = pd.Series(values)]: the column is set in the object itself,
    the series being aligned on the index labels of the frame. *)
Definition df_setitem (df : loc) (key : string) (values : list value) : M unit :=
  t ← load df; store df (set_column key values t).

(** [pd.DataFrame(data)] for a list of row series; the index labels are
    the names of the series and the columns their labels (the series
    given here all carry the same labels; no series, no columns). *)
Definition new_DataFrame (data : list (Z * Series)) : M loc :=
  alloc (framed data).

(** [series == s] for a string [s], cell by cell. *)
Definition series_eq (col : list value) (s : string) : list bool :=
  map (λ c, py_eq c (Scalar (PStr s))) col.

(** [series.isin(values)] for a list of strings; a list cell cannot be
    hashed. *)
Definition isin_cell (values : list string) (c : value) : outcome bool :=
  match c with
  | Scalar (PStr s) => Ret (bool_decide (s ∈ values))
  | Scalar _ => Ret false
  | PList _ => Raise TypeError
  end.

Definition series_isin (col : list value) (values : list string) : outcome (list bool) :=
  mapM (isin_cell values) col.

(** [series.between(left, right)], both ends included; [NaN] compares
    false, a cell that is not a number cannot be ordered against one. *)
Definition between_cell (left right : Z) (c : value) : outcome bool :=
  match c with
  | Scalar (PInt z) => Ret ((left <=? z)%Z && (z <=? right)%Z)
  | Scalar PNaN => Ret false
  | _ => Raise TypeError
  end.

Definition series_between (col : list value) (left right : Z) : outcome (list bool) :=
  mapM (between_cell left right) col.

(** [a & b] on boolean series over the same index. *)
Definition series_and (a b : list bool) : list bool := zip_with andb a b.

(** ** shapely geometry *)

Definition Coord : Type := Z * Z.

Inductive Location : Type := Interior | Boundary | Exterior.

#[global] Instance Location_eq_dec : EqDecision Location.
Proof. solve_decision. Defined.

(** Orientation of [q] against the directed segment [p1 -> p2]:
    1 to the left (counter-clockwise), -1 to the right, 0 collinear. *)
Definition orientation_index (p1 p2 q : Coord) : Z :=
  Z.sgn ((p2.1 - p1.1) * (q.2 - p2.2) - (p2.2 - p1.2) * (q.1 - p2.1))%Z.

Record RayCrossingCounter : Type := mkCounter {
  crossing_count : nat;
  is_point_on_segment : bool
}.

Definition on_segment_seen (c : RayCrossingCounter) : RayCrossingCounter :=
  mkCounter (crossing_count c) true.

Definition crossing_seen (c : RayCrossingCounter) : RayCrossingCounter :=
  mkCounter (S (crossing_count c)) (is_point_on_segment c).

(** One segment against the horizontal ray from [p] towards positive x. *)
Definition count_segment (p p1 p2 : Coord) (c : RayCrossingCounter) : RayCrossingCounter :=
  if ((p1.1 <? p.1) && (p2.1 <? p.1))%Z then c
  else if ((p.1 =? p2.1) && (p.2 =? p2.2))%Z then on_segment_seen c
  else if ((p1.2 =? p.2) && (p2.2 =? p.2))%Z then
    if ((Z.min p1.1 p2.1 <=? p.1) && (p.1 <=? Z.max p1.1 p2.1))%Z
    then on_segment_seen c else c
  else if (((p.2 <? p1.2) && (p2.2 <=? p.2)) || ((p.2 <? p2.2) && (p1.2 <=? p.2)))%Z then
    let orient := orientation_index p1 p2 p in
    if (orient =? 0)%Z then on_segment_seen c
    else
      let orient := if (p2.2 <? p1.2)%Z then (- orient)%Z else orient in
      if (0 <? orient)%Z then crossing_seen c else c
  else c.

(** The segments of a ring in order, each taken from the later vertex to
    the earlier one; the scan stops at the first segment holding [p]. *)
Fixpoint count_ring (p : Coord) (ring : list Coord) (c : RayCrossingCounter) : RayCrossingCounter :=
  match ring with
  | p2 :: ((p1 :: _) as rest) =>
      let c' := count_segment p p1 p2 c in
      if is_point_on_segment c' then c' else count_ring p rest c'
  | _ => c
  end.

Definition get_location (c : RayCrossingCounter) : Location :=
  if is_point_on_segment c then Boundary
  else if Nat.odd (crossing_count c) then Interior
  else Exterior.

Definition locate_point_in_ring (p : Coord) (ring : list Coord) : Location :=
  get_location (count_ring p ring (mkCounter 0 false)).

(** [Polygon(coordinates)]: the shell is closed by repeating the first
    vertex when the last differs from it; a closed shell of fewer than
    four coordinates is refused, and no coordinates at all give the empty
    polygon. *)
Definition Polygon (coordinates : list Coord) : outcome (list Coord) :=
  match coordinates with
  | [] => Ret []
  | first :: _ =>
      let ring := if decide (last coordinates = Some first)
                  then coordinates else coordinates ++ [first] in
      if decide (length ring < 4)%nat then Raise ValueError else Ret ring
  end.

(** [Point(x, y)] from two cells; [None] stands for a point with a [NaN]
    coordinate.  A cell that is not a number is refused (a string is taken
    not to spell a number). *)
Definition Point (x y : value) : outcome (option Coord) :=
  match x, y with
  | Scalar (PInt a), Scalar (PInt b) => Ret (Some (a, b))
  | Scalar (PInt _), Scalar PNaN
  | Scalar PNaN, Scalar (PInt _)
  | Scalar PNaN, Scalar PNaN => Ret None
  | Scalar PNone, _ | PList _, _ | Scalar (PInt _ | PNaN), (Scalar PNone | PList _) => Raise TypeError
  | Scalar (PStr _), _ | Scalar (PInt _ | PNaN), Scalar (PStr _) => Raise ValueError
  end.

(** [polygon.contains(point)]: the point is in the interior. *)
Definition contains (polygon : list Coord) (point : option Coord) : bool :=
  match point with
  | Some p => bool_decide (locate_point_in_ring p polygon = Interior)
  | None => false
  end.

(** ** Python object protocol used by the loops *)

(** [for item in v]: a list yields its elements, a string its characters;
    a number is not iterable. *)
Definition py_iter (v : value) : outcome (list obj) :=
  match v with
  | PList l => Ret l
  | Scalar (PStr s) =>
      Ret (map (λ ch, Atom (PStr (String ch EmptyString))) (list_ascii_of_string s))
  | Scalar _ => Raise TypeError
  end.

(** [item[key]] for a string key: a dict looks the key up, anything else
    cannot be indexed by a string. *)
Definition obj_getitem (item : obj) (key : string) : outcome scalar :=
  match item with
  | Dict d =>
      match d !! key with
      | Some v => Ret v
      | None => Raise (KeyError key)
      end
  | Atom _ => Raise TypeError
  end.

(** ** The methods of ProcessGameState *)

Definition remove_unneeded_cols (df : loc) (cols : list string) : M loc :=
  processed_df ← df_copy df;
  current ← df_columns processed_df;
  let irrelevant_columns : gset string := list_to_set current ∖ list_to_set cols in
  df_drop_inplace processed_df irrelevant_columns;;
  mret processed_df.

Definition filter_by_team (df : loc) (team : string) : M loc :=
  col ← df_getitem df "team";
  df_getitem_mask df (series_eq col team).

Definition filter_by_side (df : loc) (side : string) : M loc :=
  col ← df_getitem df "side";
  df_getitem_mask df (series_eq col side).

Definition filter_by_area_name (df : loc) (area_names : list string) : M loc :=
  col ← df_getitem df "area_name";
  mask ← lift (series_isin col area_names);
  df_getitem_mask df mask.

(** The lambda of [filter_by_polygon], applied to each row. *)
Definition row_in_polygon (polygon : list Coord) (row : Series) : outcome bool :=
  x ← series_getitem row "x";
  y ← series_getitem row "y";
  point ← Point x y;
  mret (contains polygon point).

Definition filter_by_polygon (df : loc) (polygon_coordinates : list Coord)
    (z_bound : Z * Z) : M loc :=
  polygon ← lift (Polygon polygon_coordinates);
  zs ← df_getitem df "z";
  in_z ← lift (series_between zs z_bound.1 z_bound.2);
  in_polygon ← df_apply df (row_in_polygon polygon);
  df_getitem_mask df (series_and in_z in_polygon).

(** The loop of [extract_weapon_classes]; [weapon_classes] is the list
    being appended to. *)
Fixpoint weapon_classes_loop (rows : list (Z * Series)) (weapon_classes : list value)
    : outcome (list value) :=
  match rows with
  | [] => Ret weapon_classes
  | (_, row) :: rest =>
      inventory ← series_getitem row "inventory";
      if decide (inventory = Scalar PNone)
      then weapon_classes_loop rest (weapon_classes ++ [PList []])
      else
        items ← py_iter inventory;
        classes ← mapM (λ item, obj_getitem item "weapon_class") items;
        weapon_classes_loop rest (weapon_classes ++ [PList (Atom <$> classes)])
  end.

Definition extract_weapon_classes (df : loc) : M loc :=
  new_df ← df_copy df;
  rows ← df_iterrows df;
  weapon_classes ← lift (weapon_classes_loop rows []);
  df_setitem new_df "weapon_classes" weapon_classes;;
  mret new_df.

(** The loop of [get_first_row_of_each_round], with its two variables. *)
Fixpoint first_rows_loop (rows : list (Z * Series)) (first_round_rows : list (Z * Series))
    (current_round : value) : outcome (list (Z * Series)) :=
  match rows with
  | [] => Ret first_round_rows
  | (label, row) :: rest =>
      round_number ← series_getitem row "round_num";
      if py_ne round_number current_round
      then first_rows_loop rest (first_round_rows ++ [(label, row)]) round_number
      else first_rows_loop rest first_round_rows current_round
  end.

Definition get_first_row_of_each_round (df : loc) : M loc :=
  rows ← df_iterrows df;
  first_round_rows ← lift (first_rows_loop rows [] (Scalar PNone));
  new_DataFrame first_round_rows.

(** A call on a table held alone in the store: the table returned, or the
    exception raised. *)
Definition call (method : loc → M loc) (t : DataFrame) : outcome DataFrame :=
  match method 0%nat [t] with
  | (Ret l, s) =>
      match s !! l with
      | Some t' => Ret t'
      | None => Raise ReferenceError
      end
  | (Raise e, _) => Raise e
  end.

(** The operations of the class, with their arguments. *)
Inductive filter_op : Type :=
  | ByTeam (team : string)
  | BySide (side : string)
  | ByAreaName (area_names : list string)
  | ByPolygon (polygon_coordinates : list Coord) (z_bound : Z * Z).

Inductive operation : Type :=
  | SelectColumns (cols : list string)
  | Filter (f : filter_op)
  | ExtractWeaponClasses
  | FirstRowPerRound.

Definition apply_filter (f : filter_op) (df : loc) : M loc :=
  match f with
  | ByTeam team => filter_by_team df team
  | BySide side => filter_by_side df side
  | ByAreaName area_names => filter_by_area_name df area_names
  | ByPolygon polygon_coordinates z_bound =>
      filter_by_polygon df polygon_coordinates z_bound
  end.

Definition perform (op : operation) (df : loc) : M loc :=
  match op with
  | SelectColumns cols => remove_unneeded_cols df cols
  | Filter f => apply_filter f df
  | ExtractWeaponClasses => extract_weapon_classes df
  | FirstRowPerRound => get_first_row_of_each_round df
  end.

(** ** Notions the properties are stated with *)

(** The [round_num] cell of a row. *)
Definition round_num (lr : Z * Row) : value := cell lr.2 "round_num".

(** The first row of each contiguous run of one round number: a row whose
    round number differs from that of the row before it; the first row of
    the table is compared with [previous]. *)
Fixpoint run_starts (previous : value) (rows : list (Z * Row)) : list (Z * Row) :=
  match rows with
  | [] => []
  | lr :: rest =>
      if py_ne (round_num lr) previous
      then lr :: run_starts (round_num lr) rest
      else run_starts (round_num lr) rest
  end.

(** A table of five rows over the columns [team] and [round_num], with the
    round numbers 1, 1, 2, 2, 1 and the index labels 0 to 4. *)
Definition round_row (team : string) (n : Z) : Row :=
  {[ "team" := Scalar (PStr team); "round_num" := Scalar (PInt n) ]}.

Definition rounds_11221 : DataFrame :=
  mkDF ["team"; "round_num"]
       [(0%Z, round_row "A" 1); (1%Z, round_row "B" 1); (2%Z, round_row "A" 2);
        (3%Z, round_row "B" 2); (4%Z, round_row "A" 1)].

(** Rows given as series, each with a round number unequal ([!=]) to that
    of the one before it, the first being compared with [previous]. *)
Fixpoint rounds_alternate (previous : value) (data : list (Z * Series)) : Prop :=
  match data with
  | [] => True
  | (_, row) :: rest =>
      ∃ v, series_getitem row "round_num" = Ret v
           ∧ py_ne v previous = true
           ∧ rounds_alternate v rest
  end.

(** The [inventory] cell of a row. *)
Definition inventory (lr : Z * Row) : value := cell lr.2 "inventory".

(** An inventory holding an item record without a [weapon_class] field. *)
Definition lacks_weapon_class (v : value) : Prop :=
  ∃ items d, v = PList items ∧ Dict d ∈ items ∧ d !! "weapon_class" = None.

(** An inventory as the data model has it: null, or a sequence of item
    records. *)
Definition inventory_typed (v : value) : Prop :=
  v = Scalar PNone ∨ ∃ ds : list (gmap string scalar), v = PList (Dict <$> ds).

(** The weapon classes of an inventory: none for a null inventory, else
    the [weapon_class] field of each item record, in order; undefined when
    an item has no such field or the cell is no inventory. *)
Definition weapon_classes_of (v : value) : option value :=
  match v with
  | Scalar PNone => Some (PList [])
  | PList items =>
      classes ← mapM (λ item, match item with
                              | Dict d => d !! "weapon_class"
                              | Atom _ => None
                              end) items;
      Some (PList (Atom <$> classes))
  | Scalar _ => None
  end.

(** Two players, and the table [filter_by_team] returns for team B: its
    only row keeps the index label 1. *)
Definition player_row (team weapon : string) : Row :=
  {[ "team" := Scalar (PStr team);
     "inventory" := PList [Dict {[ "weapon_class" := PStr weapon ]}] ]}.

Definition two_players : DataFrame :=
  mkDF ["team"; "inventory"]
       [(0%Z, player_row "A" "Pistols"); (1%Z, player_row "B" "Rifle")].

Definition team_b : DataFrame :=
  mkDF ["team"; "inventory"] [(1%Z, player_row "B" "Rifle")].

(** ** Geometry of the claims *)




(** The integer coordinates of a row, when its [x], [y] and [z] cells are
    integers. *)
Definition position (lr : Z * Row) : option (Z * Z * Z) :=
  match cell lr.2 "x", cell lr.2 "y", cell lr.2 "z" with
  | Scalar (PInt a), Scalar (PInt b), Scalar (PInt c) => Some (a, b, c)
  | _, _, _ => None
  end.

(** A table with the three coordinate columns, all cells integers. *)
Definition numeric_xyz (t : DataFrame) : Prop :=
  "x" ∈ columns t ∧ "y" ∈ columns t ∧ "z" ∈ columns t
  ∧ Forall (λ lr, is_Some (position lr)) (rows t).

(** The test [filter_by_polygon] makes on a row with integer coordinates. *)
Definition kept (polygon : list Coord) (z_bound : Z * Z) (lr : Z * Row) : bool :=
  match position lr with
  | Some (a, b, c) =>
      ((z_bound.1 <=? c)%Z && (c <=? z_bound.2)%Z)
      && bool_decide (locate_point_in_ring (a, b) polygon = Interior)
  | None => false
  end.

(** The square of the specification's scenario and four rows: one inside,
    one on the left edge, one outside, one inside but too high. *)
Definition square : list Coord := [(0, 0); (0, 2); (2, 2); (2, 0)]%Z.

Definition spot (x y z : Z) : Row :=
  {[ "x" := Scalar (PInt x); "y" := Scalar (PInt y); "z" := Scalar (PInt z) ]}.

Definition spots : DataFrame :=
  mkDF ["x"; "y"; "z"]
       [(0%Z, spot 1 1 5); (1%Z, spot 0 1 5); (2%Z, spot 5 5 5); (3%Z, spot 1 1 20)].

(** The index pandas gives a table it has just loaded: 0, 1, 2, ... *)
Definition default_index (t : DataFrame) : Prop :=
  (rows t).*1 = seqZ 0 (Z.of_nat (length (rows t))).

(** A table with a null inventory and one holding an item record that has
    no field at all. *)
Definition broken_inventory : DataFrame :=
  mkDF ["inventory"]
       [(0%Z, {[ "inventory" := Scalar PNone ]});
        (1%Z, {[ "inventory" := PList [Dict ∅] ]})].

(** ** The mask of a filter *)

(** The boolean mask a filter computes over the rows of a table, before it
    indexes the table with it. *)
Definition filter_mask (f : filter_op) (t : DataFrame) : outcome (list bool) :=
  match f with
  | ByTeam team =>
      if decide ("team" ∈ columns t)
      then Ret (series_eq (column_cells t "team") team)
      else Raise (KeyError "team")
  | BySide side =>
      if decide ("side" ∈ columns t)
      then Ret (series_eq (column_cells t "side") side)
      else Raise (KeyError "side")
  | ByAreaName area_names =>
      if decide ("area_name" ∈ columns t)
      then series_isin (column_cells t "area_name") area_names
      else Raise (KeyError "area_name")
  | ByPolygon polygon_coordinates z_bound =>
      polygon ← Polygon polygon_coordinates;
      if decide ("z" ∈ columns t)
      then in_z ← series_between (column_cells t "z") z_bound.1 z_bound.2;
           in_polygon ← mapM (row_in_polygon polygon) (iterated t).*2;
           mret (series_and in_z in_polygon)
      else Raise (KeyError "z")
  end.

(** Three players of the specification's scenario: two of team A on side
    T, one of team B on side CT. *)
Definition side_row (team side area : string) (n : Z) : Row :=
  {[ "team" := Scalar (PStr team); "side" := Scalar (PStr side);
     "area_name" := Scalar (PStr area); "round_num" := Scalar (PInt n) ]}.

Definition three_players : DataFrame :=
  mkDF ["team"; "side"; "area_name"; "round_num"]
       [(0%Z, side_row "A" "T" "BombsiteB" 1); (1%Z, side_row "A" "T" "Mid" 1);
        (2%Z, side_row "B" "CT" "BombsiteB" 2)].

(** ** The object and chains of calls *)

(** An instance of the class: its attribute [df] refers to the table read
    at construction. *)
Record ProcessGameState : Type := mkState { self_df : loc }.

(** [get_df] hands out the attribute itself, not a copy. *)
Definition get_df (self : ProcessGameState) : M loc := mret (self_df self).

(** A chain of calls, each on the table the one before returned. *)
Fixpoint pipeline (ops : list operation) (df : loc) : M loc :=
  match ops with
  | [] => mret df
  | op :: rest => r ← perform op df; pipeline rest r
  end.

(** The columns a filter reads. *)
Definition filter_columns (f : filter_op) : list string :=
  match f with
  | ByTeam _ => ["team"]
  | BySide _ => ["side"]
  | ByAreaName _ => ["area_name"]
  | ByPolygon _ _ => ["x"; "y"; "z"]
  end.

(** * Running the methods *)

Section Run.
Context (s : Store) (df : loc) (t : DataFrame) (Hdf : s !! df = Some t).

Lemma load_run : load df s = (Ret t, s).
Proof using Hdf. unfold load. by rewrite Hdf. Qed.

Lemma df_copy_run : df_copy df s = (Ret (length s), s ++ [t]).
Proof using Hdf. unfold df_copy, mbind, M_bind. by rewrite load_run. Qed.

Lemma df_columns_run : df_columns df s = (Ret (columns t), s).
Proof using Hdf. unfold df_columns, mbind, M_bind. by rewrite load_run. Qed.

Lemma df_getitem_run key :
  df_getitem df key s =
    (if decide (key ∈ columns t)
     then Ret (column_cells t key)
     else Raise (KeyError key), s).
Proof using Hdf.
  unfold df_getitem, mbind, M_bind. rewrite load_run.
  by destruct (decide (key ∈ columns t)).
Qed.

Lemma df_getitem_mask_run mask :
  df_getitem_mask df mask s =
    (Ret (length s), s ++ [filtered t mask]).
Proof using Hdf. unfold df_getitem_mask, mbind, M_bind. by rewrite load_run. Qed.

Lemma df_iterrows_run :
  df_iterrows df s = (Ret (iterated t), s).
Proof using Hdf. unfold df_iterrows, mbind, M_bind. by rewrite load_run. Qed.

Lemma df_apply_run f :
  df_apply df f s = (mapM f (iterated t).*2, s).
Proof using Hdf. unfold df_apply, mbind, M_bind. by rewrite load_run. Qed.

Lemma df_setitem_run key values :
  df_setitem df key values s = (Ret tt, <[df := set_column key values t]> s).
Proof using Hdf. unfold df_setitem, mbind, M_bind. by rewrite load_run. Qed.

Lemma df_drop_inplace_run labels :
  labels ⊆ list_to_set (columns t) →
  df_drop_inplace df labels s = (Ret tt, <[df := drop_columns labels t]> s).
Proof using Hdf.
  intros Hsub. unfold df_drop_inplace, mbind, M_bind. rewrite load_run.
  replace (labels ∖ list_to_set (columns t)) with (∅ : gset string) by set_solver.
  by rewrite elements_empty.
Qed.
End Run.

Lemma lookup_fresh (s : Store) (t : DataFrame) : (s ++ [t]) !! length s = Some t.
Proof. by rewrite list_lookup_middle. Qed.

Lemma insert_fresh (s : Store) (t t' : DataFrame) :
  <[length s := t']> (s ++ [t]) = s ++ [t'].
Proof.
  replace (length s) with (length s + 0)%nat by lia.
  by rewrite insert_app_r.
Qed.

(** The result of each method on a store where [df] holds [t]. *)
Section Methods.
Context (s : Store) (df : loc) (t : DataFrame) (Hdf : s !! df = Some t).

Lemma remove_unneeded_cols_run cols :
  remove_unneeded_cols df cols s =
    (Ret (length s),
     s ++ [drop_columns (list_to_set (columns t) ∖ list_to_set cols) t]).
Proof using Hdf.
  unfold remove_unneeded_cols, mbind, M_bind.
  rewrite (df_copy_run _ _ _ Hdf).
  rewrite (df_columns_run _ _ _ (lookup_fresh s t)).
  rewrite (df_drop_inplace_run _ _ _ (lookup_fresh s t)) by set_solver.
  by rewrite insert_fresh.
Qed.

Lemma filter_by_team_run team :
  filter_by_team df team s =
    if decide ("team" ∈ columns t)
    then (Ret (length s), s ++ [filtered t (series_eq (column_cells t "team") team)])
    else (Raise (KeyError "team"), s).
Proof using Hdf.
  unfold filter_by_team, mbind, M_bind. rewrite (df_getitem_run _ _ _ Hdf).
  destruct (decide ("team" ∈ columns t)); [|done].
  by rewrite (df_getitem_mask_run _ _ _ Hdf).
Qed.

Lemma filter_by_side_run side :
  filter_by_side df side s =
    if decide ("side" ∈ columns t)
    then (Ret (length s), s ++ [filtered t (series_eq (column_cells t "side") side)])
    else (Raise (KeyError "side"), s).
Proof using Hdf.
  unfold filter_by_side, mbind, M_bind. rewrite (df_getitem_run _ _ _ Hdf).
  destruct (decide ("side" ∈ columns t)); [|done].
  by rewrite (df_getitem_mask_run _ _ _ Hdf).
Qed.

Lemma filter_by_area_name_run area_names :
  filter_by_area_name df area_names s =
    if decide ("area_name" ∈ columns t)
    then match series_isin (column_cells t "area_name") area_names with
         | Ret mask => (Ret (length s), s ++ [filtered t mask])
         | Raise e => (Raise e, s)
         end
    else (Raise (KeyError "area_name"), s).
Proof using Hdf.
  unfold filter_by_area_name, mbind, M_bind. rewrite (df_getitem_run _ _ _ Hdf).
  destruct (decide ("area_name" ∈ columns t)); [|done].
  unfold lift.
  destruct (series_isin _ _); [|done].
  by rewrite (df_getitem_mask_run _ _ _ Hdf).
Qed.

Lemma filter_by_polygon_run polygon_coordinates z_bound :
  filter_by_polygon df polygon_coordinates z_bound s =
    match Polygon polygon_coordinates with
    | Raise e => (Raise e, s)
    | Ret polygon =>
        if decide ("z" ∈ columns t)
        then match series_between (column_cells t "z") z_bound.1 z_bound.2 with
             | Raise e => (Raise e, s)
             | Ret in_z =>
                 match mapM (row_in_polygon polygon) (iterated t).*2 with
                 | Raise e => (Raise e, s)
                 | Ret in_polygon =>
                     (Ret (length s), s ++ [filtered t (series_and in_z in_polygon)])
                 end
             end
        else (Raise (KeyError "z"), s)
    end.
Proof using Hdf.
  unfold filter_by_polygon, mbind, M_bind, lift.
  destruct (Polygon polygon_coordinates) as [polygon|]; [|done].
  rewrite (df_getitem_run _ _ _ Hdf).
  destruct (decide ("z" ∈ columns t)); [|done].
  destruct (series_between _ _ _); [|done].
  rewrite (df_apply_run _ _ _ Hdf).
  destruct (mapM _ _); [|done].
  by rewrite (df_getitem_mask_run _ _ _ Hdf).
Qed.

Lemma extract_weapon_classes_run :
  extract_weapon_classes df s =
    match weapon_classes_loop (iterated t) [] with
    | Ret weapon_classes =>
        (Ret (length s), s ++ [set_column "weapon_classes" weapon_classes t])
    | Raise e => (Raise e, s ++ [t])
    end.
Proof using Hdf.
  unfold extract_weapon_classes, mbind, M_bind, lift.
  rewrite (df_copy_run _ _ _ Hdf).
  rewrite (df_iterrows_run _ _ t) by by apply lookup_app_l_Some.
  destruct (weapon_classes_loop _ _); [|done].
  rewrite (df_setitem_run _ _ _ (lookup_fresh s t)).
  by rewrite insert_fresh.
Qed.

Lemma get_first_row_of_each_round_run :
  get_first_row_of_each_round df s =
    match first_rows_loop (iterated t) [] (Scalar PNone) with
    | Ret first_round_rows => (Ret (length s), s ++ [framed first_round_rows])
    | Raise e => (Raise e, s)
    end.
Proof using Hdf.
  unfold get_first_row_of_each_round, mbind, M_bind, lift.
  rewrite (df_iterrows_run _ _ _ Hdf).
  by destruct (first_rows_loop _ _ _).
Qed.
End Methods.

(** A call on a table held alone in the store, from the run of the method. *)
Lemma call_run (method : loc → M loc) (t out : DataFrame) :
  method 0%nat [t] = (Ret 1%nat, [t; out]) → call method t = Ret out.
Proof. unfold call. by intros ->. Qed.

(** * Frame: the input table is never touched *)

(** C6. No operation mutates its input table: in any store where [df] holds
    the table [t], after performing any of the seven operations [df] still
    holds [t], every object of the store is as it was (the store only grows
    at its end), and a returned table lives at a location that held nothing
    before the call: it is a new table. *)
Theorem operations_leave_input_unchanged
    (op : operation) (s : Store) (df : loc) (t : DataFrame) :
  s !! df = Some t →
  ∃ r s', perform op df s = (r, s')
    ∧ s' !! df = Some t
    ∧ s `prefix_of` s'
    ∧ ∀ l, r = Ret l → s !! l = None ∧ is_Some (s' !! l).
Proof.
  intros Hdf.
  assert (Hgrow : ∀ out, (s ++ [out]) !! df = Some t
    ∧ s `prefix_of` s ++ [out]
    ∧ ∀ l, Ret (length s) = Ret l → s !! l = None ∧ is_Some ((s ++ [out]) !! l)).
  { intros out. split; [by apply lookup_app_l_Some|].
    split; [by exists [out]|].
    intros l [= <-]. split; [by apply lookup_ge_None_2|].
    rewrite lookup_fresh. by eexists. }
  assert (Hsame : ∀ e, s !! df = Some t ∧ s `prefix_of` s
    ∧ ∀ l, @Raise loc e = Ret l → s !! l = None ∧ is_Some (s !! l)).
  { intros e. split; [done|]. split; [done|]. by intros l [=]. }
  destruct op as [cols|[team|side|area_names|coords z_bound]| |]; simpl.
  - rewrite (remove_unneeded_cols_run _ _ _ Hdf). eauto.
  - rewrite (filter_by_team_run _ _ _ Hdf). case_decide; eauto.
  - rewrite (filter_by_side_run _ _ _ Hdf). case_decide; eauto.
  - rewrite (filter_by_area_name_run _ _ _ Hdf).
    case_decide; [destruct (series_isin _ _)|]; eauto.
  - rewrite (filter_by_polygon_run _ _ _ Hdf).
    destruct (Polygon coords); [|by eauto].
    case_decide; [|by eauto].
    destruct (series_between _ _ _); [|by eauto].
    destruct (mapM _ _); eauto.
  - rewrite (extract_weapon_classes_run _ _ _ Hdf).
    destruct (weapon_classes_loop _ _); [by eauto|].
    eexists _, _. split; [done|]. split; [by apply lookup_app_l_Some|].
    split; [by exists [t]|]. by intros l [=].
  - rewrite (get_first_row_of_each_round_run _ _ _ Hdf).
    destruct (first_rows_loop _ _ _); eauto.
Qed.

(** * SelectColumns *)

Lemma filter_ext_in {A} (P Q : A → Prop) `{!∀ x, Decision (P x), !∀ x, Decision (Q x)}
    (l : list A) :
  (∀ x, x ∈ l → P x ↔ Q x) → filter P l = filter Q l.
Proof.
  induction l as [|a l IH]; intros HPQ; [done|].
  rewrite !filter_cons.
  rewrite IH by (intros x Hx; apply HPQ; by right).
  apply decide_ext, HPQ. by left.
Qed.

Lemma call_remove_unneeded_cols (t : DataFrame) (keep : list string) :
  call (λ df, remove_unneeded_cols df keep) t =
    Ret (drop_columns (list_to_set (columns t) ∖ list_to_set keep) t).
Proof. apply call_run. by rewrite (remove_unneeded_cols_run [t] 0%nat t). Qed.

(** C7. [remove_unneeded_cols] always returns a table (names of [keep]
    that are not columns raise nothing); its columns are exactly the
    columns of the input whose names are in [keep], in their order, so none
    is new; the rows are as many, carry the same index labels in the same
    order, keep the cell of every retained column and have no cell left for
    a dropped one. *)
Theorem remove_unneeded_cols_contract (t : DataFrame) (keep : list string) :
  ∃ out, call (λ df, remove_unneeded_cols df keep) t = Ret out
    ∧ columns out = filter (λ c, c ∈ keep) (columns t)
    ∧ (∀ c, c ∈ columns out ↔ c ∈ columns t ∧ c ∈ keep)
    ∧ length (rows out) = length (rows t)
    ∧ (rows out).*1 = (rows t).*1
    ∧ Forall2 (λ ro ri,
         (∀ c, c ∈ columns out → ro.2 !! c = ri.2 !! c)
         ∧ (∀ c, c ∈ columns t → c ∉ keep → ro.2 !! c = None))
       (rows out) (rows t).
Proof.
  eexists. split; [apply call_remove_unneeded_cols|].
  set (labels := list_to_set (columns t) ∖ list_to_set keep : gset string).
  assert (Hcols : filter (λ c, c ∉ labels) (columns t)
                  = filter (λ c, c ∈ keep) (columns t)).
  { apply filter_ext_in. intros c Hc. unfold labels.
    rewrite elem_of_difference, !elem_of_list_to_set.
    split; [|tauto]. intros Hn. destruct (decide (c ∈ keep)); tauto. }
  assert (Hmem : ∀ c, c ∈ filter (λ c, c ∉ labels) (columns t)
                      ↔ c ∈ columns t ∧ c ∈ keep).
  { intros c. rewrite Hcols, list_elem_of_filter. tauto. }
  simpl. split; [done|]. split; [done|].
  split; [by rewrite length_map|].
  split; [by rewrite <- list_fmap_compose|].
  apply Forall2_fmap_l, Forall_Forall2_diag, Forall_forall.
  intros [label r] _. simpl. split.
  - intros c [Hc Hk]%Hmem.
    destruct (r !! c) as [v|] eqn:Hr.
    + apply map_lookup_filter_Some. split; [done|]. simpl.
      unfold labels. set_solver.
    + apply map_lookup_filter_None. left. done.
  - intros c Hc Hk. apply map_lookup_filter_None. right.
    intros v _. simpl. unfold labels. set_solver.
Qed.

(** * Filters *)

Section Select.
Context {A B : Type}.
Implicit Types (mask : list bool) (l : list A).

Lemma select_sublist mask l : select mask l `sublist_of` l.
Proof.
  revert mask. induction l as [|x l IH]; intros [|[] mask]; simpl;
    try apply sublist_nil_l.
  - by apply sublist_skip.
  - by apply sublist_cons.
Qed.

Lemma select_fmap (f : A → B) mask l :
  f <$> select mask l = select mask (f <$> l).
Proof.
  revert mask. induction l as [|x l IH]; intros [|[] mask]; simpl; try done.
  by rewrite IH.
Qed.

Lemma select_select mask l : select (select mask mask) (select mask l) = select mask l.
Proof.
  revert mask. induction l as [|x l IH]; intros [|[] mask]; simpl; try done.
  - by destruct (select mask mask) as [|[] ?].
  - by rewrite IH.
Qed.
End Select.

Lemma mapM_cons {A B} (f : A → outcome B) (x : A) (l : list A) :
  mapM f (x :: l) = y ← f x; k ← mapM f l; mret (y :: k).
Proof. done. Qed.

Lemma mapM_select {A} (f : A → outcome bool) (l : list A) (mask : list bool) :
  mapM f l = Ret mask → mapM f (select mask l) = Ret (select mask mask).
Proof.
  revert mask. induction l as [|x l IH]; intros mask.
  - intros [= <-]. done.
  - rewrite mapM_cons.
    destruct (f x) as [b|] eqn:Hfx; [|done].
    destruct (mapM f l) as [k|]; [|done].
    intros [= <-]. specialize (IH k eq_refl). destruct b; cbn [select].
    + by rewrite mapM_cons, Hfx, IH.
    + done.
Qed.

Lemma filtered_sublist (t : DataFrame) (mask : list bool) :
  columns (filtered t mask) = columns t
  ∧ rows (filtered t mask) `sublist_of` rows t.
Proof. split; [done|]. apply select_sublist. Qed.

Lemma call_filter_by_team (t : DataFrame) (team : string) :
  call (λ df, filter_by_team df team) t =
    if decide ("team" ∈ columns t)
    then Ret (filtered t (series_eq (column_cells t "team") team))
    else Raise (KeyError "team").
Proof.
  unfold call. rewrite (filter_by_team_run [t] 0%nat t) by done.
  by case_decide.
Qed.

Lemma call_filter_by_side (t : DataFrame) (side : string) :
  call (λ df, filter_by_side df side) t =
    if decide ("side" ∈ columns t)
    then Ret (filtered t (series_eq (column_cells t "side") side))
    else Raise (KeyError "side").
Proof.
  unfold call. rewrite (filter_by_side_run [t] 0%nat t) by done.
  by case_decide.
Qed.

Lemma call_filter_by_area_name (t : DataFrame) (area_names : list string) :
  call (λ df, filter_by_area_name df area_names) t =
    if decide ("area_name" ∈ columns t)
    then mask ← series_isin (column_cells t "area_name") area_names;
         mret (filtered t mask)
    else Raise (KeyError "area_name").
Proof.
  unfold call. rewrite (filter_by_area_name_run [t] 0%nat t) by done.
  case_decide; [|done]. by destruct (series_isin _ _).
Qed.

Lemma call_filter_by_polygon (t : DataFrame) (coords : list Coord) (z_bound : Z * Z) :
  call (λ df, filter_by_polygon df coords z_bound) t =
    polygon ← Polygon coords;
    if decide ("z" ∈ columns t)
    then in_z ← series_between (column_cells t "z") z_bound.1 z_bound.2;
         in_polygon ← mapM (row_in_polygon polygon) (iterated t).*2;
         mret (filtered t (series_and in_z in_polygon))
    else Raise (KeyError "z").
Proof.
  unfold call. rewrite (filter_by_polygon_run [t] 0%nat t) by done.
  destruct (Polygon coords); [|done]. simpl.
  case_decide; [|done].
  destruct (series_between _ _ _); [|done]. simpl.
  by destruct (mapM _ _).
Qed.

(** C9. Whatever a filter returns, its rows are a subsequence of the rows
    of the input, so they keep their relative order and are no more than
    the input has; the columns are those of the input. *)
Theorem filters_keep_a_subsequence (f : filter_op) (t out : DataFrame) :
  call (apply_filter f) t = Ret out →
  columns out = columns t
  ∧ rows out `sublist_of` rows t
  ∧ (length (rows out) ≤ length (rows t))%nat.
Proof.
  intros Hcall.
  cut (∃ mask, out = filtered t mask).
  { intros [mask ->]. destruct (filtered_sublist t mask) as [Hc Hr].
    split; [done|]. split; [done|]. by apply sublist_length. }
  destruct f as [team|side|area_names|coords z_bound].
  - change (call (λ df, filter_by_team df team) t = Ret out) in Hcall.
    rewrite call_filter_by_team in Hcall.
    case_decide; [|done]. injection Hcall as <-. eauto.
  - change (call (λ df, filter_by_side df side) t = Ret out) in Hcall.
    rewrite call_filter_by_side in Hcall.
    case_decide; [|done]. injection Hcall as <-. eauto.
  - change (call (λ df, filter_by_area_name df area_names) t = Ret out) in Hcall.
    rewrite call_filter_by_area_name in Hcall.
    case_decide; [|done].
    destruct (series_isin _ _); [|done]. injection Hcall as <-. eauto.
  - change (call (λ df, filter_by_polygon df coords z_bound) t = Ret out) in Hcall.
    rewrite call_filter_by_polygon in Hcall.
    destruct (Polygon coords); [|done]. simpl in Hcall.
    case_decide; [|done].
    destruct (series_between _ _ _); [|done]. simpl in Hcall.
    destruct (mapM _ _); [|done]. injection Hcall as <-. eauto.
Qed.

(** A method that allocates its result, or raises with the store as it
    was, called once and called again on its own result. *)
Section Twice.
Context (method : loc → M loc) (F : DataFrame → outcome DataFrame).
Context (Hrun : ∀ s df t, s !! df = Some t →
  method df s = match F t with
                | Ret out => (Ret (length s), s ++ [out])
                | Raise e => (Raise e, s)
                end).

Lemma call_once t : call method t = F t.
Proof using Hrun.
  unfold call. rewrite (Hrun [t] 0%nat t) by done. by destruct (F t).
Qed.

Lemma call_twice t : call (λ df, r ← method df; method r) t = out ← F t; F out.
Proof using Hrun.
  unfold call, mbind at 1, M_bind. rewrite (Hrun [t] 0%nat t) by done.
  destruct (F t) as [out|]; [|done]. simpl.
  rewrite (Hrun [t; out] 1%nat out) by done.
  by destruct (F out).
Qed.

Lemma twice_idempotent t :
  (∀ out, F t = Ret out → F out = Ret out) →
  call (λ df, r ← method df; method r) t = call method t.
Proof using Hrun.
  intros Hfix. rewrite call_twice, call_once.
  destruct (F t) as [out|] eqn:HF; [|done]. simpl. by apply Hfix.
Qed.
End Twice.

Lemma filtered_series_eq_fixed (t : DataFrame) (key s : string) :
  let out := filtered t (series_eq (column_cells t key) s) in
  filtered out (series_eq (column_cells out key) s) = out.
Proof.
  unfold filtered, column_cells, series_eq. simpl. f_equal.
  rewrite <- !list_fmap_compose.
  rewrite (select_fmap (A:=Z * Row)). apply select_select.
Qed.

Lemma filtered_isin_fixed (t : DataFrame) (key : string) (names : list string)
    (mask : list bool) :
  series_isin (column_cells t key) names = Ret mask →
  series_isin (column_cells (filtered t mask) key) names = Ret (select mask mask)
  ∧ filtered (filtered t mask) (select mask mask) = filtered t mask.
Proof.
  intros Hmask. split.
  - unfold column_cells, filtered. simpl.
    rewrite (select_fmap (A:=Z * Row)). by apply mapM_select.
  - unfold filtered. simpl. f_equal. apply select_select.
Qed.

(** C8. The categorical filters are idempotent: filtering the result of a
    filter again with the same argument returns the same table (or raises
    the same exception) as filtering once. *)
Theorem categorical_filters_idempotent (t : DataFrame) :
  (∀ team, call (λ df, r ← filter_by_team df team; filter_by_team r team) t
           = call (λ df, filter_by_team df team) t)
  ∧ (∀ side, call (λ df, r ← filter_by_side df side; filter_by_side r side) t
             = call (λ df, filter_by_side df side) t)
  ∧ (∀ area_names,
       call (λ df, r ← filter_by_area_name df area_names;
                   filter_by_area_name r area_names) t
       = call (λ df, filter_by_area_name df area_names) t).
Proof.
  split; [|split].
  - intros team.
    apply (twice_idempotent (λ df, filter_by_team df team)
             (λ t, if decide ("team" ∈ columns t)
                   then Ret (filtered t (series_eq (column_cells t "team") team))
                   else Raise (KeyError "team"))).
    + intros s df t' Hdf. rewrite (filter_by_team_run _ _ _ Hdf). by case_decide.
    + intros out Hout. case_decide; [|done]. injection Hout as <-.
      rewrite decide_True by done. f_equal. apply filtered_series_eq_fixed.
  - intros side.
    apply (twice_idempotent (λ df, filter_by_side df side)
             (λ t, if decide ("side" ∈ columns t)
                   then Ret (filtered t (series_eq (column_cells t "side") side))
                   else Raise (KeyError "side"))).
    + intros s df t' Hdf. rewrite (filter_by_side_run _ _ _ Hdf). by case_decide.
    + intros out Hout. case_decide; [|done]. injection Hout as <-.
      rewrite decide_True by done. f_equal. apply filtered_series_eq_fixed.
  - intros area_names.
    apply (twice_idempotent (λ df, filter_by_area_name df area_names)
             (λ t, if decide ("area_name" ∈ columns t)
                   then mask ← series_isin (column_cells t "area_name") area_names;
                        mret (filtered t mask)
                   else Raise (KeyError "area_name"))).
    + intros s df t' Hdf. rewrite (filter_by_area_name_run _ _ _ Hdf).
      case_decide; [|done]. by destruct (series_isin _ _).
    + intros out Hout. case_decide; [|done].
      destruct (series_isin _ _) as [mask|] eqn:Hmask; [|done].
      injection Hout as <-. rewrite decide_True by done.
      destruct (filtered_isin_fixed _ _ _ _ Hmask) as [-> Hfix].
      simpl. by rewrite Hfix.
Qed.

(** * The first row of each round *)

Lemma py_eq_true (a b : value) : py_eq a b = true → a = b.
Proof.
  unfold py_eq. destruct a as [[]|]; try done; by intros ?%bool_decide_eq_true.
Qed.

Lemma series_getitem_row_series (cols : list string) (r : Row) (key : string) :
  series_getitem (row_series cols r) key =
    if decide (key ∈ cols) then Ret (cell r key) else Raise (KeyError key).
Proof.
  induction cols as [|c cols IH].
  - cbn [row_series map series_getitem].
    destruct (decide (key ∈ [])) as [Hin|]; [|done]. by apply elem_of_nil in Hin.
  - cbn [row_series map series_getitem]. fold (row_series cols r).
    destruct (decide (c = key)) as [->|Hne].
    + destruct (decide (key ∈ key :: cols)) as [|Hout]; [done|].
      destruct Hout. by left.
    + rewrite IH. apply decide_ext. rewrite elem_of_cons. naive_solver.
Qed.

Lemma series_getitem_list_to_map (row : Series) (key : string) (v : value) :
  series_getitem row key = Ret v → cell (list_to_map row) key = v.
Proof.
  unfold cell. induction row as [|[c w] row IH]; simpl; [done|].
  destruct (decide (c = key)) as [->|Hne].
  - intros [= ->]. by rewrite lookup_insert_eq.
  - intros Hrest. rewrite lookup_insert_ne by done. by apply IH.
Qed.

Lemma row_series_labels (cols : list string) (r : Row) : (row_series cols r).*1 = cols.
Proof.
  unfold row_series. rewrite <- list_fmap_compose. simpl. apply list_fmap_id.
Qed.

Lemma list_to_map_row_series (cols : list string) (r : Row) :
  wf_row cols r → list_to_map (row_series cols r) = r.
Proof.
  intros Hdom.
  assert (Hwf : ∀ c, is_Some (r !! c) ↔ c ∈ cols).
  { intros c. by rewrite <- elem_of_dom, Hdom, elem_of_list_to_set. }
  apply map_eq. intros c.
  destruct (decide (c ∈ cols)) as [Hin|Hout].
  - destruct (proj2 (Hwf c) Hin) as [v Hv]. rewrite Hv.
    apply elem_of_list_to_map_1'.
    + intros w [c' [[= <- ->] _]]%list_elem_of_fmap. unfold cell. by rewrite Hv.
    + apply list_elem_of_fmap. exists c. split; [|done].
      unfold cell. by rewrite Hv.
  - transitivity (@None value).
    + apply not_elem_of_list_to_map_1. by rewrite row_series_labels.
    + symmetry. apply eq_None_not_Some. by rewrite (Hwf c).
Qed.

(** The loop emits the run starts of the rows it is given. *)
Lemma first_rows_loop_run_starts (cols : list string) (rows : list (Z * Row))
    (acc : list (Z * Series)) (current : value) :
  "round_num" ∈ cols →
  first_rows_loop (map (λ lr, (lr.1, row_series cols lr.2)) rows) acc current =
    Ret (acc ++ map (λ lr, (lr.1, row_series cols lr.2)) (run_starts current rows)).
Proof.
  intros Hcol. revert acc current.
  induction rows as [|[label r] rows IH]; intros acc current; simpl.
  - by rewrite app_nil_r.
  - rewrite series_getitem_row_series, decide_True by done. simpl.
    unfold round_num at 1 2. simpl.
    destruct (py_ne (cell r "round_num") current) eqn:Hne.
    + rewrite IH. simpl. by rewrite <- app_assoc.
    + rewrite IH. unfold py_ne in Hne. apply negb_false_iff, py_eq_true in Hne.
      unfold round_num. simpl. by rewrite Hne.
Qed.

Lemma run_starts_sublist (previous : value) (rows : list (Z * Row)) :
  run_starts previous rows `sublist_of` rows.
Proof.
  revert previous. induction rows as [|lr rows IH]; intros previous; simpl.
  - constructor.
  - destruct (py_ne _ _); by constructor.
Qed.

Lemma framed_iterated (cols : list string) (rows : list (Z * Row)) :
  Forall (λ lr, wf_row cols lr.2) rows →
  framed (map (λ lr, (lr.1, row_series cols lr.2)) rows) =
    mkDF (match rows with [] => [] | _ => cols end) rows.
Proof.
  intros Hwf. unfold framed. f_equal.
  - destruct rows as [|[label r] rows]; [done|]. simpl. apply row_series_labels.
  - rewrite <- list_fmap_compose.
    induction Hwf as [|[label r] rows Hr Hrows IH]; [done|].
    rewrite fmap_cons. simpl in *. by rewrite IH, list_to_map_row_series.
Qed.

Lemma call_get_first_row_of_each_round (t : DataFrame) :
  call get_first_row_of_each_round t =
    first_round_rows ← first_rows_loop (iterated t) [] (Scalar PNone);
    mret (framed first_round_rows).
Proof.
  unfold call. rewrite (get_first_row_of_each_round_run [t] 0%nat t) by done.
  by destruct (first_rows_loop _ _ _).
Qed.

(** C3. On a table with a [round_num] column, [get_first_row_of_each_round]
    returns exactly the rows whose round number differs from that of the
    row before them (the first row being compared with [None]): the first
    row of each contiguous run, in source order.  For the round numbers
    1, 1, 2, 2, 1 these are the rows at positions 0, 2 and 4: round 1 comes
    twice. *)
Theorem first_rows_are_run_starts (t : DataFrame) :
  wf t → "round_num" ∈ columns t →
  (∃ out, call get_first_row_of_each_round t = Ret out
     ∧ rows out = run_starts (Scalar PNone) (rows t)
     ∧ rows out `sublist_of` rows t
     ∧ (rows out ≠ [] → columns out = columns t))
  ∧ (∃ out, call get_first_row_of_each_round rounds_11221 = Ret out
       ∧ rows out = [(0%Z, round_row "A" 1); (2%Z, round_row "A" 2);
                     (4%Z, round_row "A" 1)]).
Proof.
  intros Hwf Hcol. split.
  - eexists. split.
    + rewrite call_get_first_row_of_each_round. unfold iterated.
      rewrite first_rows_loop_run_starts by done. simpl.
      rewrite framed_iterated; [done|].
      apply Forall_forall. intros lr Hlr.
      apply (proj1 (Forall_forall _ _) Hwf).
      eapply elem_of_sublist; [done|apply run_starts_sublist].
    + simpl. split; [done|]. split; [apply run_starts_sublist|].
      by destruct (run_starts _ _).
  - eexists. split; [by vm_compute|]. done.
Qed.

Lemma rounds_alternate_snoc (previous : value) (data : list (Z * Series))
    (label : Z) (row : Series) (last_round v : value) :
  rounds_alternate previous data →
  (data = [] → last_round = previous) →
  (∀ init lr, data = init ++ [lr] → series_getitem lr.2 "round_num" = Ret last_round) →
  series_getitem row "round_num" = Ret v →
  py_ne v last_round = true →
  rounds_alternate previous (data ++ [(label, row)]).
Proof.
  revert previous. induction data as [|[l0 r0] data IH]; intros previous; simpl.
  - intros _ Hnil _ Hv Hne. rewrite (Hnil eq_refl) in Hne. eauto.
  - intros (v0 & Hv0 & Hne0 & Hrest) _ Hlast Hv Hne.
    exists v0. split; [done|]. split; [done|].
    apply IH; [done| | |done|done].
    + intros ->. specialize (Hlast [] (l0, r0) eq_refl). simpl in Hlast. congruence.
    + intros init lr ->. apply (Hlast ((l0, r0) :: init) lr). done.
Qed.

(** The invariant of the loop: the rows emitted so far alternate, and the
    tracked round is that of the last of them. *)
Lemma first_rows_loop_alternate (rows acc res : list (Z * Series)) (current : value) :
  rounds_alternate (Scalar PNone) acc →
  (acc = [] → current = Scalar PNone) →
  (∀ init lr, acc = init ++ [lr] → series_getitem lr.2 "round_num" = Ret current) →
  first_rows_loop rows acc current = Ret res →
  rounds_alternate (Scalar PNone) res.
Proof.
  revert acc current. induction rows as [|[label row] rows IH];
    intros acc current Hacc Hnil Hlast; simpl.
  - by intros [= <-].
  - destruct (series_getitem row "round_num") as [v|] eqn:Hv; [|done]. simpl.
    destruct (py_ne v current) eqn:Hne.
    + apply IH.
      * by eapply rounds_alternate_snoc.
      * intros Hnone. by destruct acc.
      * intros init lr [_ <-]%app_inj_tail. done.
    + by apply IH.
Qed.

Lemma rounds_alternate_lookup (previous : value) (data : list (Z * Series)) :
  rounds_alternate previous data →
  ∀ i a b,
    (framed data).(rows) !! i = Some a → (framed data).(rows) !! S i = Some b →
    py_ne (round_num b) (round_num a) = true.
Proof.
  revert previous. induction data as [|[l0 r0] data IH]; intros previous; [done|].
  intros (v0 & Hv0 & _ & Hrest) i a b.
  destruct i as [|i]; simpl.
  - intros [= <-]. destruct data as [|[l1 r1] data]; [done|]. simpl.
    intros [= <-]. destruct Hrest as (v1 & Hv1 & Hne & _).
    unfold round_num. simpl.
    by rewrite (series_getitem_list_to_map _ _ _ Hv0),
               (series_getitem_list_to_map _ _ _ Hv1).
  - apply (IH _ Hrest).
Qed.

(** C10. In the table [get_first_row_of_each_round] returns, the round
    number of every row is unequal (Python's [!=]) to the round number of
    the row just before it; two adjacent rows never carry the same
    integer. *)
Theorem adjacent_first_rows_differ (t out : DataFrame) :
  call get_first_row_of_each_round t = Ret out →
  ∀ i a b, rows out !! i = Some a → rows out !! S i = Some b →
    py_ne (round_num b) (round_num a) = true
    ∧ ∀ n m, round_num a = Scalar (PInt n) → round_num b = Scalar (PInt m) → n ≠ m.
Proof.
  rewrite call_get_first_row_of_each_round.
  destruct (first_rows_loop _ _ _) as [data|] eqn:Hloop; [|done].
  intros [= <-] i a b Ha Hb.
  assert (Hne : py_ne (round_num b) (round_num a) = true).
  { apply (rounds_alternate_lookup (Scalar PNone) data) with i; [|done|done].
    eapply first_rows_loop_alternate; [| | |exact Hloop]; try done.
    by intros [] ? ?%app_cons_not_nil. }
  split; [done|]. intros n m Hn Hm ->. rewrite Hn, Hm in Hne.
  unfold py_ne, py_eq in Hne. by rewrite bool_decide_eq_true_2 in Hne.
Qed.

(** * Weapon classes *)

Lemma call_extract_weapon_classes (t : DataFrame) :
  call extract_weapon_classes t =
    weapon_classes ← weapon_classes_loop (iterated t) [];
    mret (set_column "weapon_classes" weapon_classes t).
Proof.
  unfold call. rewrite (extract_weapon_classes_run [t] 0%nat t) by done.
  by destruct (weapon_classes_loop _ _).
Qed.

Lemma mapM_obj_getitem_missing (items : list obj) (d : gmap string scalar) (key : string) :
  Dict d ∈ items → d !! key = None →
  ∃ e, mapM (λ item, obj_getitem item key) items = Raise e.
Proof.
  intros Hin Hd. induction items as [|item items IH]; [by apply elem_of_nil in Hin|].
  rewrite mapM_cons.
  destruct (obj_getitem item key) as [v|e] eqn:Hitem; [|by exists e].
  apply elem_of_cons in Hin as [<-|Hin].
  - simpl in Hitem. by rewrite Hd in Hitem.
  - destruct (IH Hin) as [e ->]. by exists e.
Qed.

Lemma mapM_obj_getitem_dicts (ds : list (gmap string scalar)) (key : string) (e : exn) :
  mapM (λ item, obj_getitem item key) (Dict <$> ds) = Raise e → e = KeyError key.
Proof.
  induction ds as [|d ds IH]; [done|].
  rewrite fmap_cons, mapM_cons. simpl.
  destruct (d !! key); simpl; [|by intros [= <-]].
  destruct (mapM _ _); simpl; [done|]. intros [= <-]. by apply IH.
Qed.

Section Loop.
Context (cols : list string) (Hcol : "inventory" ∈ cols).
Lemma weapon_classes_loop_missing body acc :
  Exists (λ lr, lacks_weapon_class (inventory lr)) body →
  ∃ e, weapon_classes_loop (iterated (mkDF cols body)) acc = Raise e.
Proof using Hcol.
  revert acc. induction body as [|[label r] body IH]; intros acc Hbad.
  { by apply Exists_nil in Hbad. }
  cbn [iterated columns rows map fst snd weapon_classes_loop].
  fold (iterated (mkDF cols body)).
  rewrite series_getitem_row_series, decide_True by done. simpl.
  apply Exists_cons in Hbad.
  destruct (decide (cell r "inventory" = Scalar PNone)) as [Hnone|Hsome].
  - destruct Hbad as [(items & d & Hv & _)|Hbad]; [|by apply IH].
    unfold inventory in Hv. simpl in Hv. congruence.
  - destruct (py_iter (cell r "inventory")) as [items|e] eqn:Hiter; [|by exists e].
    simpl.
    destruct (mapM _ items) as [classes|e] eqn:Hclasses; [|by exists e]. simpl.
    destruct Hbad as [(items' & d & Hv & Hin & Hd)|Hbad]; [|by apply IH].
    unfold inventory in Hv. simpl in Hv. rewrite Hv in Hiter.
    injection Hiter as <-.
    destruct (mapM_obj_getitem_missing _ _ _ Hin Hd) as [e He]. congruence.
Qed.

Lemma weapon_classes_loop_typed body acc e :
  Forall (λ lr, inventory_typed (inventory lr)) body →
  weapon_classes_loop (iterated (mkDF cols body)) acc = Raise e →
  e = KeyError "weapon_class".
Proof using Hcol.
  revert acc. induction body as [|[label r] body IH]; intros acc Htyped; [done|].
  cbn [iterated columns rows map fst snd weapon_classes_loop].
  fold (iterated (mkDF cols body)).
  rewrite series_getitem_row_series, decide_True by done. simpl.
  apply Forall_cons in Htyped as [Hr Hbody].
  destruct (decide (cell r "inventory" = Scalar PNone)) as [Hnone|Hsome].
  - by apply IH.
  - destruct Hr as [Hr|[ds Hr]]; [done|].
    unfold inventory in Hr. simpl in Hr. rewrite Hr. simpl.
    destruct (mapM _ (Dict <$> ds)) as [classes|e'] eqn:Hclasses; simpl.
    + by apply IH.
    + intros [= <-]. by eapply mapM_obj_getitem_dicts.
Qed.
End Loop.

(** C5. On a table with an [inventory] column, if the inventory of any row
    holds an item record without a [weapon_class] field, the whole call
    fails: an exception is raised and no table is returned, whatever the
    other rows hold.  When every inventory is null or a sequence of item
    records, the exception is the missing-field error,
    [KeyError "weapon_class"]. *)
Theorem missing_weapon_class_fails (t : DataFrame) :
  "inventory" ∈ columns t →
  Exists (λ lr, lacks_weapon_class (inventory lr)) (rows t) →
  (∃ e, call extract_weapon_classes t = Raise e)
  ∧ (Forall (λ lr, inventory_typed (inventory lr)) (rows t) →
     call extract_weapon_classes t = Raise (KeyError "weapon_class")).
Proof.
  intros Hcol Hbad. rewrite call_extract_weapon_classes.
  destruct t as [cols body]. simpl in Hcol, Hbad.
  destruct (weapon_classes_loop_missing cols Hcol body [] Hbad) as [e He].
  rewrite He. simpl. split; [by exists e|].
  intros Htyped. f_equal. by eapply weapon_classes_loop_typed.
Qed.

(** ** The weapon classes column *)

Lemma mapM_obj_getitem_fields (items : list obj) (classes : list scalar) :
  mapM (λ item, match item with
                | Dict d => d !! "weapon_class"
                | Atom _ => None
                end) items = Some classes →
  mapM (λ item, obj_getitem item "weapon_class") items = Ret classes.
Proof.
  revert classes. induction items as [|item items IH]; intros classes.
  - by intros [= <-].
  - intros Hall. apply mapM_Some, Forall2_cons_inv_l in Hall
      as (c & classes' & Hc & Hrest & ->).
    apply mapM_Some in Hrest. rewrite mapM_cons, (IH _ Hrest).
    destruct item as [a|d]; [done|]. simpl. by rewrite Hc.
Qed.

Lemma weapon_classes_loop_defined (cols : list string) (body : list (Z * Row))
    (acc : list value) :
  "inventory" ∈ cols →
  Forall (λ lr, is_Some (weapon_classes_of (inventory lr))) body →
  weapon_classes_loop (iterated (mkDF cols body)) acc =
    Ret (acc ++ map (λ lr, default (PList []) (weapon_classes_of (inventory lr))) body).
Proof.
  intros Hcol. revert acc. induction body as [|[label r] body IH]; intros acc Hall.
  { simpl. by rewrite app_nil_r. }
  apply Forall_cons in Hall as [[w Hw] Hall].
  cbn [iterated columns rows map fst snd weapon_classes_loop].
  fold (iterated (mkDF cols body)).
  rewrite series_getitem_row_series, decide_True by done. simpl.
  cbn [map]. unfold inventory in Hw. unfold inventory at 1. simpl in Hw |- *.
  destruct (cell r "inventory") as [[]|items]; simpl in Hw; try done.
  - rewrite decide_True by done.
    rewrite IH by done. by rewrite <- app_assoc.
  - rewrite decide_False by done. simpl.
    destruct (mapM _ items) as [classes|] eqn:Hclasses; [|done].
    rewrite (mapM_obj_getitem_fields _ _ Hclasses). simpl.
    rewrite IH by done. by rewrite <- app_assoc.
Qed.

(** X11. On a table with an [inventory] column and the default index
    0, 1, ..., whose inventories are null or hold item records that all
    have a [weapon_class] field, [extract_weapon_classes] returns the rows
    under their labels, each with the weapon classes of its own inventory
    in the [weapon_classes] cell and its other cells as they were. *)
Lemma extract_weapon_classes_default_index (t : DataFrame) :
  "inventory" ∈ columns t → default_index t →
  Forall (λ lr, is_Some (weapon_classes_of (inventory lr))) (rows t) →
  ∃ out, call extract_weapon_classes t = Ret out
    ∧ Forall2 (λ ro ri, ro.1 = ri.1
         ∧ ∃ w, weapon_classes_of (inventory ri) = Some w
                ∧ ro.2 = <["weapon_classes" := w]> ri.2)
       (rows out) (rows t).
Proof.
  intros Hcol Hindex Hall.
  assert (Hloop : weapon_classes_loop (iterated t) [] =
            Ret (map (λ lr, default (PList []) (weapon_classes_of (inventory lr)))
                   (rows t))).
  { destruct t as [cols body].
    by rewrite (weapon_classes_loop_defined cols body [] Hcol Hall). }
  eexists. split.
  { rewrite call_extract_weapon_classes, Hloop. reflexivity. }
  simpl. apply Forall2_fmap_l, Forall_Forall2_diag, Forall_lookup.
  intros i [label r] Hi. simpl. split; [done|].
  destruct (proj1 (Forall_lookup _ _) Hall i _ Hi) as [w Hw].
  exists w. split; [done|]. f_equal.
  assert (label = Z.of_nat i) as ->.
  { assert (Hl : (rows t).*1 !! i = Some label) by by rewrite list_lookup_fmap, Hi.
    rewrite Hindex in Hl. apply lookup_seqZ in Hl. lia. }
  unfold aligned. rewrite decide_True by lia.
  rewrite Nat2Z.id, list_lookup_fmap, Hi. simpl. by rewrite Hw.
Qed.

(** C4 fails on a table whose index is not the default one.  The table
    [filter_by_team] returns for team B has one row, labelled 1, whose
    inventory holds a rifle; [extract_weapon_classes] gives that row the
    weapon classes [NaN] where the claim has the list with ["Rifle"]: the
    new column is a series labelled from 0, aligned on the labels of the
    table. *)
Theorem weapon_classes_misaligned_on_filtered_table :
  call (λ df, filter_by_team df "B") two_players = Ret team_b
  ∧ weapon_classes_of (inventory (1%Z, player_row "B" "Rifle"))
    = Some (PList [Atom (PStr "Rifle")])
  ∧ call extract_weapon_classes team_b
    = Ret (mkDF ["team"; "inventory"; "weapon_classes"]
             [(1%Z, <["weapon_classes" := Scalar PNaN]> (player_row "B" "Rifle"))]).
Proof. split; [|split]; by vm_compute. Qed.

(** * The polygon filter *)

(** ** Point location *)









(** ** The filter on tables with integer coordinates *)

Lemma mapM_pointwise {A B} (f : A → outcome B) (g : A → B) (l : list A) :
  Forall (λ x, f x = Ret (g x)) l → mapM f l = Ret (map g l).
Proof.
  induction 1 as [|x l Hx Hl IH]; [done|].
  by rewrite mapM_cons, Hx, IH.
Qed.

Lemma series_and_map {A} (f g : A → bool) (l : list A) :
  series_and (map f l) (map g l) = map (λ x, f x && g x) l.
Proof. unfold series_and. induction l as [|x l IH]; simpl; by rewrite ?IH. Qed.


Lemma select_none {A} (f : A → bool) (l : list A) :
  (∀ x, f x = false) → select (map f l) l = [].
Proof. intros Hf. induction l as [|y l IH]; simpl; [done|]. by rewrite Hf. Qed.

Lemma call_filter_by_polygon_numeric (t : DataFrame) (coords polygon : list Coord)
    (z_bound : Z * Z) :
  numeric_xyz t → Polygon coords = Ret polygon →
  call (λ df, filter_by_polygon df coords z_bound) t =
    Ret (filtered t (map (kept polygon z_bound) (rows t))).
Proof.
  intros (Hx & Hy & Hz & Hnum) Hpoly.
  rewrite call_filter_by_polygon, Hpoly. simpl. rewrite decide_True by done.
  set (in_z := λ lr : Z * Row,
         match position lr with
         | Some (_, _, c) => (z_bound.1 <=? c)%Z && (c <=? z_bound.2)%Z
         | None => false
         end).
  set (inside := λ lr : Z * Row,
         match position lr with
         | Some (a, b, _) => bool_decide (locate_point_in_ring (a, b) polygon = Interior)
         | None => false
         end).
  assert (Hpos : ∀ lr, lr ∈ rows t → ∃ a b c,
            cell lr.2 "x" = Scalar (PInt a) ∧ cell lr.2 "y" = Scalar (PInt b)
            ∧ cell lr.2 "z" = Scalar (PInt c) ∧ position lr = Some (a, b, c)).
  { intros lr Hlr.
    destruct (proj1 (Forall_forall _ _) Hnum lr Hlr) as [[[a b] c] Hpos].
    exists a, b, c. unfold position in *.
    repeat case_match; try done. by simplify_eq. }
  assert (Hbetween : ∀ l, (∀ lr, lr ∈ l → lr ∈ rows t) →
            mapM (between_cell z_bound.1 z_bound.2) (map (λ lr, cell lr.2 "z") l)
            = Ret (map in_z l)).
  { induction l as [|lr l IH]; intros Hl; [done|].
    cbn [map]. rewrite mapM_cons.
    destruct (Hpos lr) as (a & b & c & _ & _ & Hc & Hp); [apply Hl; by left|].
    rewrite Hc, IH by (intros ? ?; apply Hl; by right). simpl.
    unfold in_z. cbv beta. by rewrite Hp. }
  assert (Hinside : ∀ l, (∀ lr, lr ∈ l → lr ∈ rows t) →
            mapM (row_in_polygon polygon) (map (λ lr, row_series (columns t) lr.2) l)
            = Ret (map inside l)).
  { induction l as [|lr l IH]; intros Hl; [done|].
    cbn [map]. rewrite mapM_cons.
    destruct (Hpos lr) as (a & b & c & Ha & Hb & _ & Hp); [apply Hl; by left|].
    rewrite IH by (intros ? ?; apply Hl; by right).
    unfold row_in_polygon at 1.
    rewrite !series_getitem_row_series, !decide_True by done. simpl.
    rewrite Ha, Hb. simpl. unfold inside. cbv beta. by rewrite Hp. }
  assert (Hrows : (iterated t).*2 = map (λ lr, row_series (columns t) lr.2) (rows t)).
  { unfold iterated. by rewrite <- list_fmap_compose. }
  rewrite Hrows.
  unfold series_between, column_cells.
  rewrite Hbetween by done. simpl. rewrite Hinside by done. simpl. do 2 f_equal.
  rewrite series_and_map.
  apply Forall_fmap_ext, Forall_forall. intros lr Hlr.
  unfold in_z, inside, kept. destruct (position lr) as [[[a b] c]|]; done.
Qed.



(** C2, as amended.  A polygon of one or two vertices is refused when it is
    constructed: the call raises [ValueError] before the table is read,
    returns nothing, and leaves the store as it was.  A bound whose lower
    end exceeds its upper end is not an error: on a table with integer
    coordinates the call returns the table without rows.  Nor is a polygon
    of no vertex at all: it is the empty polygon, which contains no point,
    and the call returns the table without rows. *)
Theorem filter_by_polygon_argument_errors (coords : list Coord) (z_bound : Z * Z) :
  ((length coords = 1 ∨ length coords = 2)%nat →
   ∀ s df, filter_by_polygon df coords z_bound s = (Raise ValueError, s))
  ∧ ((z_bound.2 < z_bound.1)%Z →
     ∀ t polygon, numeric_xyz t → Polygon coords = Ret polygon →
       call (λ df, filter_by_polygon df coords z_bound) t = Ret (mkDF (columns t) []))
  ∧ (coords = [] →
     ∀ t, numeric_xyz t →
       call (λ df, filter_by_polygon df coords z_bound) t = Ret (mkDF (columns t) [])).
Proof.
  split; [|split].
  - intros Hlen s df. unfold filter_by_polygon, mbind, M_bind, lift.
    assert (Polygon coords = Raise ValueError) as ->; [|done].
    unfold Polygon. destruct coords as [|v0 [|v1 [|v2 coords]]]; simpl in Hlen;
      try lia; cbv zeta; repeat case_decide; try done; simpl in *; lia.
  - intros Hbound t polygon Hnum Hpoly.
    rewrite (call_filter_by_polygon_numeric _ _ _ _ Hnum Hpoly).
    unfold filtered. rewrite select_none; [done|].
    intros lr. unfold kept. destruct (position lr) as [[[a b] c]|]; [|done].
    apply andb_false_intro1.
    destruct (Z.leb_spec z_bound.1 c), (Z.leb_spec c z_bound.2); simpl; try done.
    lia.
  - intros -> t Hnum.
    rewrite (call_filter_by_polygon_numeric _ [] [] _ Hnum eq_refl).
    unfold filtered. rewrite select_none; [done|].
    intros lr. unfold kept. destruct (position lr) as [[[a b] c]|]; [|done].
    apply andb_false_r.
Qed.

(** C2 as stated fails: with the bound (10, 0), whose lower end exceeds
    the upper one, the call on the square raises nothing and returns the
    table without rows. *)
Lemma reversed_bound_is_accepted :
  (0 < 10)%Z
  ∧ call (λ df, filter_by_polygon df square (10, 0)%Z) spots
    = Ret (mkDF ["x"; "y"; "z"] [])
  ∧ ¬ ∃ e, call (λ df, filter_by_polygon df square (10, 0)%Z) spots = Raise e.
Proof.
  assert (Hcall : call (λ df, filter_by_polygon df square (10, 0)%Z) spots
                  = Ret (mkDF ["x"; "y"; "z"] [])) by by vm_compute.
  split; [lia|]. split; [done|]. rewrite Hcall. by intros [e ?].
Qed.

(** * The theorems at concrete tables *)

Lemma operations_leave_input_unchanged_witness :
  [two_players] !! 0%nat = Some two_players
  ∧ ∃ r s', perform (Filter (ByTeam "B")) 0%nat [two_players] = (r, s')
      ∧ s' !! 0%nat = Some two_players
      ∧ [two_players] `prefix_of` s'
      ∧ ∀ l, r = Ret l → [two_players] !! l = None ∧ is_Some (s' !! l).
Proof.
  split; [reflexivity|].
  apply (operations_leave_input_unchanged (Filter (ByTeam "B")) [two_players]
           0%nat two_players).
  reflexivity.
Defined.

Lemma filters_keep_a_subsequence_witness :
  call (apply_filter (ByTeam "B")) two_players = Ret team_b
  ∧ columns team_b = columns two_players
  ∧ rows team_b `sublist_of` rows two_players
  ∧ (length (rows team_b) ≤ length (rows two_players))%nat.
Proof.
  split; [vm_compute; reflexivity|].
  apply (filters_keep_a_subsequence (ByTeam "B") two_players team_b).
  vm_compute. reflexivity.
Defined.

Lemma wf_rounds_11221 : wf rounds_11221.
Proof. repeat constructor; vm_compute; reflexivity. Defined.

Lemma first_rows_are_run_starts_witness :
  (∃ out, call get_first_row_of_each_round rounds_11221 = Ret out
     ∧ rows out = run_starts (Scalar PNone) (rows rounds_11221)
     ∧ rows out `sublist_of` rows rounds_11221
     ∧ (rows out ≠ [] → columns out = columns rounds_11221))
  ∧ (∃ out, call get_first_row_of_each_round rounds_11221 = Ret out
       ∧ rows out = [(0%Z, round_row "A" 1); (2%Z, round_row "A" 2);
                     (4%Z, round_row "A" 1)]).
Proof.
  apply (first_rows_are_run_starts rounds_11221).
  - exact wf_rounds_11221.
  - vm_compute. repeat constructor.
Defined.

Lemma adjacent_first_rows_differ_witness :
  py_ne (round_num (2%Z, round_row "A" 2)) (round_num (0%Z, round_row "A" 1)) = true
  ∧ ∀ n m, round_num (0%Z, round_row "A" 1) = Scalar (PInt n) →
           round_num (2%Z, round_row "A" 2) = Scalar (PInt m) → n ≠ m.
Proof.
  apply (adjacent_first_rows_differ rounds_11221
           (mkDF ["team"; "round_num"]
              [(0%Z, round_row "A" 1); (2%Z, round_row "A" 2); (4%Z, round_row "A" 1)])
           ltac:(vm_compute; reflexivity) 0%nat).
  - reflexivity.
  - reflexivity.
Defined.

Lemma missing_weapon_class_fails_witness :
  (∃ e, call extract_weapon_classes broken_inventory = Raise e)
  ∧ (Forall (λ lr, inventory_typed (inventory lr)) (rows broken_inventory) →
     call extract_weapon_classes broken_inventory = Raise (KeyError "weapon_class")).
Proof.
  apply (missing_weapon_class_fails broken_inventory).
  - vm_compute. repeat constructor.
  - apply Exists_cons_tl, Exists_cons_hd.
    exists [Dict ∅], ∅. split; [vm_compute; reflexivity|].
    split; [constructor|reflexivity].
Defined.

Lemma numeric_xyz_spots : numeric_xyz spots.
Proof.
  unfold numeric_xyz, spots. simpl. repeat split.
  - repeat constructor.
  - repeat constructor.
  - repeat constructor.
  - repeat apply Forall_cons_2; [..|apply Forall_nil_2];
      eexists; vm_compute; reflexivity.
Defined.


Lemma filter_by_polygon_argument_errors_witness :
  filter_by_polygon 0%nat [(0, 0)%Z; (1, 1)%Z] (0, 10)%Z [spots] = (Raise ValueError, [spots])
  ∧ call (λ df, filter_by_polygon df square (10, 0)%Z) spots = Ret (mkDF (columns spots) []).
Proof.
  split.
  - apply (proj1 (filter_by_polygon_argument_errors [(0, 0)%Z; (1, 1)%Z] (0, 10)%Z)).
    right. reflexivity.
  - apply (proj1 (proj2 (filter_by_polygon_argument_errors square (10, 0)%Z))
             ltac:(simpl; lia) spots (square ++ [(0, 0)%Z])).
    + exact numeric_xyz_spots.
    + vm_compute. reflexivity.
Defined.

(** * Further properties of the filters *)

(** Every filter computes a mask and indexes the table with it; when the
    mask cannot be computed nothing is allocated. *)
Lemma apply_filter_run (f : filter_op) (s : Store) (df : loc) (t : DataFrame) :
  s !! df = Some t →
  apply_filter f df s =
    match filter_mask f t with
    | Ret mask => (Ret (length s), s ++ [filtered t mask])
    | Raise e => (Raise e, s)
    end.
Proof.
  intros Hdf. destruct f as [team|side|area_names|coords z_bound]; simpl.
  - rewrite (filter_by_team_run _ _ _ Hdf). by case_decide.
  - rewrite (filter_by_side_run _ _ _ Hdf). by case_decide.
  - rewrite (filter_by_area_name_run _ _ _ Hdf). case_decide; [|done].
    by destruct (series_isin _ _).
  - rewrite (filter_by_polygon_run _ _ _ Hdf).
    destruct (Polygon coords); [|done]. simpl. case_decide; [|done].
    destruct (series_between _ _ _); [|done]. simpl.
    by destruct (mapM _ _).
Qed.

Lemma select_nil_r {A} (mask : list bool) : select mask ([] : list A) = [].
Proof. by destruct mask as [|[] ?]. Qed.

Lemma select_comm {A} (m1 m2 : list bool) (l : list A) :
  select (select m1 m2) (select m1 l) = select (select m2 m1) (select m2 l).
Proof.
  revert m1 m2. induction l as [|x l IH]; intros m1 m2.
  - by rewrite !select_nil_r.
  - destruct m1 as [|[] m1], m2 as [|[] m2]; simpl; rewrite ?select_nil_r;
      try done; try (by rewrite IH); apply IH.
Qed.

Lemma select_zip_with (mask a b : list bool) :
  select mask (zip_with andb a b) = zip_with andb (select mask a) (select mask b).
Proof.
  revert a b. induction mask as [|m mask IH]; intros [|x a] [|y b]; simpl; try done.
  - by destruct m, (select mask a).
  - destruct m; simpl; by rewrite IH.
Qed.

Lemma mapM_select_any {A} (f : A → outcome bool) (l : list A) (mask m : list bool) :
  mapM f l = Ret m → mapM f (select mask l) = Ret (select mask m).
Proof.
  revert mask m. induction l as [|x l IH]; intros mask m.
  - intros [= <-]. by rewrite !select_nil_r.
  - rewrite mapM_cons.
    destruct (f x) as [b|] eqn:Hfx; [|done].
    destruct (mapM f l) as [k|]; [|done].
    intros [= <-]. destruct mask as [|[] mask]; cbn [select]; [done| |].
    + by rewrite mapM_cons, Hfx, (IH mask k eq_refl).
    + by apply IH.
Qed.

(** The mask of a filter on a selection of the rows is the selection of
    its mask on all the rows. *)
Lemma filter_mask_filtered (f : filter_op) (t : DataFrame) (mask m : list bool) :
  filter_mask f t = Ret m →
  filter_mask f (filtered t mask) = Ret (select mask m).
Proof.
  assert (Hcells : ∀ key, column_cells (filtered t mask) key
                          = select mask (column_cells t key)).
  { intros key. unfold column_cells, filtered. simpl.
    apply (select_fmap (A:=Z * Row)). }
  destruct f as [team|side|area_names|coords z_bound]; simpl.
  - case_decide; [|done]. intros [= <-]. rewrite Hcells. unfold series_eq.
    f_equal. apply (select_fmap (A:=value)).
  - case_decide; [|done]. intros [= <-]. rewrite Hcells. unfold series_eq.
    f_equal. apply (select_fmap (A:=value)).
  - case_decide; [|done]. rewrite Hcells. apply mapM_select_any.
  - destruct (Polygon coords) as [polygon|]; [|done]. simpl.
    case_decide; [|done].
    destruct (series_between (column_cells t "z") _ _) as [in_z|] eqn:Hz; [|done].
    simpl.
    destruct (mapM _ (iterated t).*2) as [in_polygon|] eqn:Hp; [|done]. simpl.
    intros [= <-]. rewrite Hcells.
    unfold series_between in *. rewrite (mapM_select_any _ _ mask _ Hz). simpl.
    assert ((iterated (filtered t mask)).*2 = select mask (iterated t).*2) as ->.
    { unfold iterated, filtered. simpl. rewrite <- !list_fmap_compose.
      apply (select_fmap (A:=Z * Row)). }
    rewrite (mapM_select_any _ _ mask _ Hp). simpl.
    unfold series_and. by rewrite select_zip_with.
Qed.

(** Two methods that allocate their result, or raise with the store as it
    was, called one on the result of the other. *)
Section Then.
Context (first second : loc → M loc) (F G : DataFrame → outcome DataFrame).
Context (Hfirst : ∀ s df t, s !! df = Some t →
  first df s = match F t with
               | Ret out => (Ret (length s), s ++ [out])
               | Raise e => (Raise e, s)
               end).
Context (Hsecond : ∀ s df t, s !! df = Some t →
  second df s = match G t with
                | Ret out => (Ret (length s), s ++ [out])
                | Raise e => (Raise e, s)
                end).

Lemma call_then t : call (λ df, r ← first df; second r) t = out ← F t; G out.
Proof using Hfirst Hsecond.
  unfold call, mbind at 1, M_bind. rewrite (Hfirst [t] 0%nat t) by done.
  destruct (F t) as [out|]; [|done]. simpl.
  rewrite (Hsecond [t; out] 1%nat out) by done.
  by destruct (G out).
Qed.
End Then.

Lemma apply_filter_form (f : filter_op) (s : Store) (df : loc) (t : DataFrame) :
  s !! df = Some t →
  apply_filter f df s =
    match (mask ← filter_mask f t; mret (filtered t mask)) with
    | Ret out => (Ret (length s), s ++ [out])
    | Raise e => (Raise e, s)
    end.
Proof.
  intros Hdf. rewrite (apply_filter_run _ _ _ _ Hdf). by destruct (filter_mask f t).
Qed.

Lemma call_apply_filter (f : filter_op) (t : DataFrame) :
  call (apply_filter f) t = mask ← filter_mask f t; mret (filtered t mask).
Proof.
  apply (call_once (apply_filter f)
           (λ t, mask ← filter_mask f t; mret (filtered t mask))).
  intros s df t'. apply apply_filter_form.
Qed.

Lemma call_apply_filter_then (f g : filter_op) (t : DataFrame) :
  call (λ df, r ← apply_filter f df; apply_filter g r) t =
    mf ← filter_mask f t;
    mg ← filter_mask g (filtered t mf);
    mret (filtered (filtered t mf) mg).
Proof.
  rewrite (call_then (apply_filter f) (apply_filter g)
             (λ t, mask ← filter_mask f t; mret (filtered t mask))
             (λ t, mask ← filter_mask g t; mret (filtered t mask))
             (apply_filter_form f) (apply_filter_form g)).
  by destruct (filter_mask f t).
Qed.

Lemma select_map_filter {A} (f : A → bool) (l : list A) :
  select (map f l) l = filter (λ x, f x = true) l.
Proof.
  induction l as [|x l IH]; [done|]. simpl. rewrite filter_cons, IH.
  destruct (f x); by rewrite ?decide_True, ?decide_False by done.
Qed.

Lemma py_eq_str (c : value) (s : string) :
  py_eq c (Scalar (PStr s)) = true ↔ c = Scalar (PStr s).
Proof.
  split; [apply py_eq_true|]. intros ->. unfold py_eq.
  by apply bool_decide_eq_true_2.
Qed.

Lemma filtered_series_eq_rows (t : DataFrame) (key s : string) :
  rows (filtered t (series_eq (column_cells t key) s))
  = filter (λ lr, cell lr.2 key = Scalar (PStr s)) (rows t).
Proof.
  unfold filtered, series_eq, column_cells. simpl.
  rewrite <- list_fmap_compose.
  rewrite (select_map_filter (λ lr : Z * Row, py_eq (cell lr.2 key) (Scalar (PStr s)))).
  apply list_filter_iff. intros lr. apply py_eq_str.
Qed.

(** X1. On a table with a [team] column, [filter_by_team] returns the rows
    whose [team] cell is exactly the given string, in their order, under
    the same columns; no cell makes it raise and no match is no error. *)
Theorem filter_by_team_rows (t : DataFrame) (team : string) :
  "team" ∈ columns t →
  ∃ out, call (λ df, filter_by_team df team) t = Ret out
    ∧ columns out = columns t
    ∧ rows out = filter (λ lr, cell lr.2 "team" = Scalar (PStr team)) (rows t).
Proof.
  intros Hcol. eexists. split.
  { rewrite call_filter_by_team, decide_True by done. reflexivity. }
  split; [done|]. apply filtered_series_eq_rows.
Qed.

Lemma filter_by_team_rows_witness :
  ∃ out, call (λ df, filter_by_team df "A") three_players = Ret out
    ∧ columns out = columns three_players
    ∧ rows out = filter (λ lr, cell lr.2 "team" = Scalar (PStr "A")) (rows three_players).
Proof.
  apply (filter_by_team_rows three_players "A"). vm_compute. repeat constructor.
Defined.

(** X2. On a table with a [side] column, [filter_by_side] returns the rows
    whose [side] cell is exactly the given string, in their order, under
    the same columns. *)
Theorem filter_by_side_rows (t : DataFrame) (side : string) :
  "side" ∈ columns t →
  ∃ out, call (λ df, filter_by_side df side) t = Ret out
    ∧ columns out = columns t
    ∧ rows out = filter (λ lr, cell lr.2 "side" = Scalar (PStr side)) (rows t).
Proof.
  intros Hcol. eexists. split.
  { rewrite call_filter_by_side, decide_True by done. reflexivity. }
  split; [done|]. apply filtered_series_eq_rows.
Qed.

Lemma filter_by_side_rows_witness :
  ∃ out, call (λ df, filter_by_side df "CT") three_players = Ret out
    ∧ columns out = columns three_players
    ∧ rows out = filter (λ lr, cell lr.2 "side" = Scalar (PStr "CT")) (rows three_players).
Proof.
  apply (filter_by_side_rows three_players "CT"). vm_compute. repeat constructor.
Defined.

Lemma mapM_ext_outcome {A B} (f g : A → outcome B) (l : list A) :
  (∀ x, f x = g x) → mapM f l = mapM g l.
Proof.
  intros Hfg. induction l as [|x l IH]; [done|].
  by rewrite !mapM_cons, Hfg, IH.
Qed.

(** X3. [filter_by_area_name] depends on the names only as a set: two
    lists with the same members, in any order and with any repetitions,
    give the same result, the same exception included. *)
Theorem filter_by_area_name_set (t : DataFrame) (names names' : list string) :
  (∀ s, s ∈ names ↔ s ∈ names') →
  call (λ df, filter_by_area_name df names) t
  = call (λ df, filter_by_area_name df names') t.
Proof.
  intros Hsame. rewrite !call_filter_by_area_name. case_decide; [|done].
  unfold series_isin.
  rewrite (mapM_ext_outcome (isin_cell names) (isin_cell names')); [done|].
  intros [[]|]; simpl; try done. f_equal. apply bool_decide_ext, Hsame.
Qed.

Lemma filter_by_area_name_set_witness :
  call (λ df, filter_by_area_name df ["Mid"; "BombsiteB"; "Mid"]) three_players
  = call (λ df, filter_by_area_name df ["BombsiteB"; "Mid"]) three_players.
Proof.
  apply (filter_by_area_name_set three_players).
  intros s. rewrite !elem_of_cons. rewrite elem_of_nil. tauto.
Defined.





Lemma apply_filter_twice (f : filter_op) (t : DataFrame) :
  call (λ df, r ← apply_filter f df; apply_filter f r) t = call (apply_filter f) t.
Proof.
  rewrite call_apply_filter_then, call_apply_filter.
  destruct (filter_mask f t) as [m|] eqn:Hm; [|done]. simpl.
  rewrite (filter_mask_filtered f t m m Hm). simpl.
  unfold filtered. simpl. by rewrite select_select.
Qed.

(** X5. [filter_by_polygon] is idempotent: filtering its result again with
    the same polygon and bound returns the same table, and a call that
    raises does so the first time. *)
Theorem filter_by_polygon_idempotent (t : DataFrame) (coords : list Coord)
    (z_bound : Z * Z) :
  call (λ df, r ← filter_by_polygon df coords z_bound;
              filter_by_polygon r coords z_bound) t
  = call (λ df, filter_by_polygon df coords z_bound) t.
Proof. apply (apply_filter_twice (ByPolygon coords z_bound)). Qed.

(** X6. Two filters that both succeed on a table commute: applied in
    either order they return the same table, and its rows are a
    subsequence of what each filter returns alone.  In particular the
    second filter never raises on the result of the first. *)
Theorem filters_commute (f g : filter_op) (t a b : DataFrame) :
  call (apply_filter f) t = Ret a →
  call (apply_filter g) t = Ret b →
  ∃ out, call (λ df, r ← apply_filter f df; apply_filter g r) t = Ret out
    ∧ call (λ df, r ← apply_filter g df; apply_filter f r) t = Ret out
    ∧ rows out `sublist_of` rows a
    ∧ rows out `sublist_of` rows b.
Proof.
  rewrite !call_apply_filter, !call_apply_filter_then.
  destruct (filter_mask f t) as [mf|] eqn:Hf; [|done].
  destruct (filter_mask g t) as [mg|] eqn:Hg; [|done]. simpl.
  intros [= <-] [= <-].
  rewrite (filter_mask_filtered g t mf mg Hg), (filter_mask_filtered f t mg mf Hf).
  simpl. eexists. split; [reflexivity|]. unfold filtered. simpl.
  split; [by rewrite select_comm|]. split; [apply select_sublist|].
  rewrite select_comm. apply select_sublist.
Qed.

Lemma filters_commute_witness :
  ∃ out, call (λ df, r ← apply_filter (ByTeam "A") df;
                     apply_filter (ByAreaName ["BombsiteB"]) r) three_players = Ret out
    ∧ call (λ df, r ← apply_filter (ByAreaName ["BombsiteB"]) df;
                  apply_filter (ByTeam "A") r) three_players = Ret out
    ∧ rows out `sublist_of` [(0%Z, side_row "A" "T" "BombsiteB" 1);
                             (1%Z, side_row "A" "T" "Mid" 1)]
    ∧ rows out `sublist_of` [(0%Z, side_row "A" "T" "BombsiteB" 1);
                             (2%Z, side_row "B" "CT" "BombsiteB" 2)].
Proof.
  apply (filters_commute (ByTeam "A") (ByAreaName ["BombsiteB"]) three_players
           (mkDF (columns three_players)
              [(0%Z, side_row "A" "T" "BombsiteB" 1); (1%Z, side_row "A" "T" "Mid" 1)])
           (mkDF (columns three_players)
              [(0%Z, side_row "A" "T" "BombsiteB" 1);
               (2%Z, side_row "B" "CT" "BombsiteB" 2)])).
  - vm_compute. reflexivity.
  - vm_compute. reflexivity.
Defined.

(** X7. A filter on a table that lacks its column raises [KeyError] with
    the name of the column and allocates nothing: the store is exactly as
    it was.  For [filter_by_polygon] the column is [z], looked up once the
    polygon has been built. *)
Theorem filters_missing_column (s : Store) (df : loc) (t : DataFrame) :
  s !! df = Some t →
  ("team" ∉ columns t →
   ∀ team, filter_by_team df team s = (Raise (KeyError "team"), s))
  ∧ ("side" ∉ columns t →
     ∀ side, filter_by_side df side s = (Raise (KeyError "side"), s))
  ∧ ("area_name" ∉ columns t →
     ∀ names, filter_by_area_name df names s = (Raise (KeyError "area_name"), s))
  ∧ ("z" ∉ columns t →
     ∀ coords polygon z_bound, Polygon coords = Ret polygon →
       filter_by_polygon df coords z_bound s = (Raise (KeyError "z"), s)).
Proof.
  intros Hdf. repeat split.
  - intros Hcol team. rewrite (filter_by_team_run _ _ _ Hdf). by rewrite decide_False.
  - intros Hcol side. rewrite (filter_by_side_run _ _ _ Hdf). by rewrite decide_False.
  - intros Hcol names. rewrite (filter_by_area_name_run _ _ _ Hdf).
    by rewrite decide_False.
  - intros Hcol coords polygon z_bound Hpoly.
    rewrite (filter_by_polygon_run _ _ _ Hdf), Hpoly. by rewrite decide_False.
Qed.

Lemma filters_missing_column_witness :
  filter_by_team 0%nat "A" [spots] = (Raise (KeyError "team"), [spots])
  ∧ filter_by_polygon 0%nat square (0, 10)%Z [three_players]
    = (Raise (KeyError "z"), [three_players]).
Proof.
  split.
  - apply (proj1 (filters_missing_column [spots] 0%nat spots eq_refl)).
    vm_compute. intros Hin. repeat (inversion Hin as [|? ? ? Hin']; subst; clear Hin;
      try rename Hin' into Hin).
  - apply (proj2 (proj2 (proj2 (filters_missing_column [three_players] 0%nat
                                  three_players eq_refl)))
             ltac:(by apply (bool_decide_unpack _)) square (square ++ [(0, 0)%Z])).
    vm_compute. reflexivity.
Defined.

(** * Further properties of the column selection *)

Lemma lookup_filter_keys (labels : gset string) (r : Row) (c : string) :
  filter (λ kv : string * value, kv.1 ∉ labels) r !! c
  = if decide (c ∈ labels) then None else r !! c.
Proof.
  case_decide as Hc.
  - apply map_lookup_filter_None. right. intros v _. simpl. tauto.
  - destruct (r !! c) as [v|] eqn:Hr.
    + by apply map_lookup_filter_Some.
    + apply map_lookup_filter_None. by left.
Qed.

Lemma remove_unneeded_cols_form (keep : list string) (s : Store) (df : loc)
    (t : DataFrame) :
  s !! df = Some t →
  remove_unneeded_cols df keep s =
    match Ret (drop_columns (list_to_set (columns t) ∖ list_to_set keep) t) with
    | Ret out => (Ret (length s), s ++ [out])
    | Raise e => (Raise e, s)
    end.
Proof. intros Hdf. by rewrite (remove_unneeded_cols_run _ _ _ Hdf). Qed.

Lemma drop_columns_twice (t : DataFrame) (keep1 keep2 : list string) :
  let once := drop_columns (list_to_set (columns t) ∖ list_to_set keep1) t in
  drop_columns (list_to_set (columns once) ∖ list_to_set keep2) once
  = drop_columns
      (list_to_set (columns t) ∖ list_to_set (filter (λ c, c ∈ keep2) keep1)) t.
Proof.
  simpl. unfold drop_columns. simpl.
  set (S1 := list_to_set (columns t) ∖ list_to_set keep1 : gset string).
  set (cols1 := filter (λ c, c ∉ S1) (columns t)).
  set (S2 := list_to_set cols1 ∖ list_to_set keep2 : gset string).
  set (S := list_to_set (columns t)
            ∖ list_to_set (filter (λ c, c ∈ keep2) keep1) : gset string).
  assert (Hkey : ∀ c, (c ∉ S) ↔ ((c ∉ S1) ∧ (c ∉ S2))).
  { intros c. unfold S, S2, cols1, S1.
    repeat (rewrite elem_of_difference || rewrite elem_of_list_to_set
            || rewrite list_elem_of_filter).
    destruct (decide (c ∈ columns t)), (decide (c ∈ keep1)), (decide (c ∈ keep2));
      tauto. }
  f_equal.
  - unfold cols1. rewrite list_filter_filter. apply list_filter_iff.
    intros c. rewrite Hkey. tauto.
  - rewrite <- list_fmap_compose. apply list_fmap_ext. intros i [label r] _.
    simpl. f_equal. apply map_eq. intros c. rewrite !lookup_filter_keys.
    destruct (decide (c ∈ S)) as [HS|HS].
    + destruct (decide (c ∈ S2)) as [|H2]; [done|].
      destruct (decide (c ∈ S1)) as [|H1]; [done|].
      by destruct (proj2 (Hkey c) (conj H1 H2)).
    + apply Hkey in HS as [H1 H2]. by rewrite !decide_False.
Qed.

(** X8. Selecting columns twice is selecting once the names kept both
    times: [remove_unneeded_cols] with [keep2] on the result of
    [remove_unneeded_cols] with [keep1] returns the table that the names of
    [keep1] also in [keep2] give.  So it is idempotent, and the order of
    two selections does not matter. *)
Theorem remove_unneeded_cols_twice (t : DataFrame) (keep1 keep2 : list string) :
  call (λ df, r ← remove_unneeded_cols df keep1; remove_unneeded_cols r keep2) t
  = call (λ df, remove_unneeded_cols df (filter (λ c, c ∈ keep2) keep1)) t
  ∧ call (λ df, r ← remove_unneeded_cols df keep1; remove_unneeded_cols r keep1) t
    = call (λ df, remove_unneeded_cols df keep1) t
  ∧ call (λ df, r ← remove_unneeded_cols df keep1; remove_unneeded_cols r keep2) t
    = call (λ df, r ← remove_unneeded_cols df keep2; remove_unneeded_cols r keep1) t.
Proof.
  assert (Htwice : ∀ k1 k2,
    call (λ df, r ← remove_unneeded_cols df k1; remove_unneeded_cols r k2) t
    = Ret (drop_columns
             (list_to_set (columns t) ∖ list_to_set (filter (λ c, c ∈ k2) k1)) t)).
  { intros k1 k2.
    rewrite (call_then (λ df, remove_unneeded_cols df k1)
               (λ df, remove_unneeded_cols df k2)
               (λ t, Ret (drop_columns (list_to_set (columns t) ∖ list_to_set k1) t))
               (λ t, Ret (drop_columns (list_to_set (columns t) ∖ list_to_set k2) t))
               (remove_unneeded_cols_form k1) (remove_unneeded_cols_form k2)).
    simpl. f_equal. apply drop_columns_twice. }
  assert (Hset : ∀ k k' : list string, (∀ c, c ∈ k ↔ c ∈ k') →
    (list_to_set k : gset string) = list_to_set k').
  { intros k k' Hk. apply set_eq. intros c. by rewrite !elem_of_list_to_set. }
  split; [|split].
  - by rewrite Htwice, call_remove_unneeded_cols.
  - rewrite Htwice, call_remove_unneeded_cols. do 3 f_equal.
    apply Hset. intros c. rewrite list_elem_of_filter. tauto.
  - rewrite !Htwice. do 3 f_equal.
    apply Hset. intros c. rewrite !list_elem_of_filter. tauto.
Qed.

(** * The frame invariant *)

Lemma wf_drop_columns (labels : gset string) (t : DataFrame) :
  wf t → wf (drop_columns labels t).
Proof.
  unfold wf, drop_columns. simpl. intros Hwf.
  apply Forall_fmap, Forall_forall. intros [label r] Hr. simpl.
  apply (proj1 (Forall_forall _ _) Hwf) in Hr. unfold wf_row in *. simpl in Hr.
  apply set_eq. intros c.
  rewrite elem_of_dom, lookup_filter_keys, elem_of_list_to_set, list_elem_of_filter.
  case_decide as Hc.
  - split; [by intros []|tauto].
  - rewrite <- elem_of_dom, Hr, elem_of_list_to_set. tauto.
Qed.

Lemma wf_filtered (t : DataFrame) (mask : list bool) : wf t → wf (filtered t mask).
Proof.
  unfold wf, filtered. simpl. intros Hwf. apply Forall_forall. intros lr Hlr.
  apply (proj1 (Forall_forall _ _) Hwf).
  eapply elem_of_sublist; [done|apply select_sublist].
Qed.

Lemma wf_set_column (key : string) (values : list value) (t : DataFrame) :
  wf t → wf (set_column key values t).
Proof.
  unfold wf, set_column. simpl. intros Hwf.
  apply Forall_fmap, Forall_forall. intros [label r] Hr. simpl.
  apply (proj1 (Forall_forall _ _) Hwf) in Hr. unfold wf_row in *. simpl in Hr.
  rewrite dom_insert_L, Hr. apply set_eq. intros c.
  case_decide as Hkey.
  - rewrite elem_of_union, elem_of_singleton, elem_of_list_to_set.
    split; [intros [->|]; done|tauto].
  - rewrite list_to_set_app_L. simpl. set_solver.
Qed.

Lemma first_rows_loop_elements (rows acc res : list (Z * Series)) (current : value) :
  first_rows_loop rows acc current = Ret res →
  ∀ x, x ∈ res → x ∈ acc ∨ x ∈ rows.
Proof.
  revert acc current. induction rows as [|[label row] rows IH];
    intros acc current; simpl.
  - intros [= <-] x Hx. by left.
  - destruct (series_getitem row "round_num") as [v|]; [|done]. simpl.
    destruct (py_ne v current); intros Hres x Hx.
    + destruct (IH _ _ Hres x Hx) as [[Hacc| ->%list_elem_of_singleton]%elem_of_app|Hin].
      * by left.
      * right. by left.
      * right. by right.
    + destruct (IH _ _ Hres x Hx) as [Hacc|Hin]; [by left|]. right. by right.
Qed.

Lemma wf_framed (cols : list string) (data : list (Z * Series)) :
  Forall (λ nr, nr.2.*1 = cols) data → wf (framed data).
Proof.
  intros Hdata. unfold wf, framed. simpl.
  apply Forall_fmap, Forall_forall. intros [label row] Hrow. simpl.
  unfold wf_row. rewrite dom_list_to_map_L.
  assert (Hlabels : row.*1 = cols)
    by apply (proj1 (Forall_forall _ _) Hdata (label, row) Hrow).
  rewrite Hlabels.
  destruct data as [|[l0 r0] data]; [by apply elem_of_nil in Hrow|].
  apply Forall_cons in Hdata as [Hhead _]. simpl in Hhead. by rewrite Hhead.
Qed.

(** X9. Every operation keeps the frame invariant: on a table whose rows
    have a cell for each column and for nothing else, whatever table an
    operation returns is again such a table. *)
Theorem operations_preserve_wf (op : operation) (t out : DataFrame) :
  wf t → call (perform op) t = Ret out → wf out.
Proof.
  intros Hwf. destruct op as [cols|f| |].
  - change (call (λ df, remove_unneeded_cols df cols) t = Ret out → wf out).
    rewrite call_remove_unneeded_cols. intros [= <-]. by apply wf_drop_columns.
  - change (call (apply_filter f) t = Ret out → wf out).
    rewrite call_apply_filter.
    destruct (filter_mask f t); [|done]. intros [= <-]. by apply wf_filtered.
  - change (call extract_weapon_classes t = Ret out → wf out).
    rewrite call_extract_weapon_classes.
    destruct (weapon_classes_loop _ _); [|done]. intros [= <-].
    by apply wf_set_column.
  - change (call get_first_row_of_each_round t = Ret out → wf out).
    rewrite call_get_first_row_of_each_round.
    destruct (first_rows_loop _ _ _) as [data|] eqn:Hloop; [|done].
    intros [= <-]. apply (wf_framed (columns t)).
    apply Forall_forall. intros x Hx.
    destruct (first_rows_loop_elements _ _ _ _ Hloop x Hx) as [Hnil|Hin].
    { by apply elem_of_nil in Hnil. }
    unfold iterated in Hin. apply list_elem_of_fmap in Hin as ([label r] & -> & _).
    simpl. apply row_series_labels.
Qed.

Lemma operations_preserve_wf_witness :
  wf (mkDF ["team"; "round_num"]
        [(0%Z, round_row "A" 1); (2%Z, round_row "A" 2); (4%Z, round_row "A" 1)]).
Proof.
  apply (operations_preserve_wf FirstRowPerRound rounds_11221).
  - repeat constructor; vm_compute; reflexivity.
  - vm_compute. reflexivity.
Defined.

(** * Further properties of the weapon classes *)

Lemma extract_weapon_classes_default_index_witness :
  ∃ out, call extract_weapon_classes two_players = Ret out
    ∧ Forall2 (λ ro ri, ro.1 = ri.1
         ∧ ∃ w, weapon_classes_of (inventory ri) = Some w
                ∧ ro.2 = <["weapon_classes" := w]> ri.2)
       (rows out) (rows two_players).
Proof.
  apply (extract_weapon_classes_default_index two_players).
  - vm_compute. repeat constructor.
  - vm_compute. reflexivity.
  - repeat apply Forall_cons_2; [..|apply Forall_nil_2]; eexists; vm_compute;
      reflexivity.
Defined.

(** X10. Whatever table [extract_weapon_classes] returns has the columns
    of the input, with [weapon_classes] added at the end unless it was
    there already, and the rows of the input under the same index labels:
    every cell but [weapon_classes] is as it was, and every row has a
    [weapon_classes] cell. *)
Theorem extract_weapon_classes_frame (t out : DataFrame) :
  call extract_weapon_classes t = Ret out →
  columns out = (if decide ("weapon_classes" ∈ columns t)
                 then columns t else columns t ++ ["weapon_classes"])
  ∧ (rows out).*1 = (rows t).*1
  ∧ Forall2 (λ ro ri, ∀ c, c ≠ "weapon_classes" → ro.2 !! c = ri.2 !! c)
      (rows out) (rows t)
  ∧ Forall (λ ro, is_Some (ro.2 !! "weapon_classes")) (rows out).
Proof.
  rewrite call_extract_weapon_classes.
  destruct (weapon_classes_loop _ _) as [values|]; [|done]. intros [= <-].
  unfold set_column. simpl. split; [done|].
  split; [by rewrite <- list_fmap_compose|]. split.
  - apply Forall2_fmap_l, Forall_Forall2_diag, Forall_forall.
    intros [label r] _ c Hc. simpl. by rewrite lookup_insert_ne.
  - apply Forall_fmap, Forall_forall. intros [label r] _. simpl.
    rewrite lookup_insert_eq. by eexists.
Qed.

Lemma extract_weapon_classes_frame_witness :
  columns (mkDF ["team"; "inventory"; "weapon_classes"]
             [(1%Z, <["weapon_classes" := Scalar PNaN]> (player_row "B" "Rifle"))])
  = (if decide ("weapon_classes" ∈ columns team_b)
     then columns team_b else columns team_b ++ ["weapon_classes"])
  ∧ (rows (mkDF ["team"; "inventory"; "weapon_classes"]
       [(1%Z, <["weapon_classes" := Scalar PNaN]> (player_row "B" "Rifle"))])).*1
    = (rows team_b).*1
  ∧ Forall2 (λ ro ri, ∀ c, c ≠ "weapon_classes" → ro.2 !! c = ri.2 !! c)
      (rows (mkDF ["team"; "inventory"; "weapon_classes"]
         [(1%Z, <["weapon_classes" := Scalar PNaN]> (player_row "B" "Rifle"))]))
      (rows team_b)
  ∧ Forall (λ ro, is_Some (ro.2 !! "weapon_classes"))
      (rows (mkDF ["team"; "inventory"; "weapon_classes"]
         [(1%Z, <["weapon_classes" := Scalar PNaN]> (player_row "B" "Rifle"))])).
Proof.
  apply (extract_weapon_classes_frame team_b). vm_compute. reflexivity.
Defined.

(** X12. Without an [inventory] column [extract_weapon_classes] raises
    [KeyError] at the first row; a table without rows has nothing to read
    and gets the new column whether or not it has an [inventory] column.
    An inventory that is a number is not iterable: [TypeError]. *)
Theorem extract_weapon_classes_edges (t : DataFrame) :
  ("inventory" ∉ columns t → rows t ≠ [] →
   call extract_weapon_classes t = Raise (KeyError "inventory"))
  ∧ (rows t = [] →
     call extract_weapon_classes t = Ret (set_column "weapon_classes" [] t))
  ∧ ("inventory" ∈ columns t →
     ∀ lr rest n, rows t = lr :: rest → inventory lr = Scalar (PInt n) →
       call extract_weapon_classes t = Raise TypeError).
Proof.
  rewrite call_extract_weapon_classes. unfold iterated.
  destruct (rows t) as [|[label r] rest] eqn:Hrows; split; try split; try done.
  - intros Hcol _. cbn [map fst snd weapon_classes_loop].
    by rewrite series_getitem_row_series, decide_False.
  - intros Hcol lr rest' n [= <- <-] Hn. cbn [map fst snd weapon_classes_loop].
    rewrite series_getitem_row_series, decide_True by done. simpl.
    unfold inventory in Hn. simpl in Hn. by rewrite Hn.
Qed.

Lemma extract_weapon_classes_edges_witness :
  call extract_weapon_classes spots = Raise (KeyError "inventory")
  ∧ call extract_weapon_classes (mkDF ["team"] [])
    = Ret (set_column "weapon_classes" [] (mkDF ["team"] [])).
Proof.
  split.
  - apply (proj1 (extract_weapon_classes_edges spots)).
    + vm_compute. intros Hin.
      repeat (inversion Hin as [|? ? ? Hin']; subst; clear Hin;
              try rename Hin' into Hin).
    + discriminate.
  - apply (proj1 (proj2 (extract_weapon_classes_edges (mkDF ["team"] [])))).
    reflexivity.
Defined.

(** * Further properties of the first rows *)

Lemma get_first_row_of_each_round_form (s : Store) (df : loc) (t : DataFrame) :
  s !! df = Some t →
  get_first_row_of_each_round df s =
    match (data ← first_rows_loop (iterated t) [] (Scalar PNone); mret (framed data)) with
    | Ret out => (Ret (length s), s ++ [out])
    | Raise e => (Raise e, s)
    end.
Proof.
  intros Hdf. rewrite (get_first_row_of_each_round_run _ _ _ Hdf).
  by destruct (first_rows_loop _ _ _).
Qed.

Lemma run_starts_idem (previous : value) (rows : list (Z * Row)) :
  run_starts previous (run_starts previous rows) = run_starts previous rows.
Proof.
  revert previous. induction rows as [|lr rows IH]; intros previous; [done|].
  simpl. destruct (py_ne (round_num lr) previous) eqn:Hne.
  - simpl. by rewrite Hne, IH.
  - unfold py_ne in Hne. apply negb_false_iff, py_eq_true in Hne.
    rewrite Hne. apply IH.
Qed.

Lemma first_rows_of_wf (t : DataFrame) :
  wf t → "round_num" ∈ columns t →
  first_rows_loop (iterated t) [] (Scalar PNone) ≫= (λ data, mret (framed data))
  = Ret (mkDF (match run_starts (Scalar PNone) (rows t) with
               | [] => []
               | _ => columns t
               end)
              (run_starts (Scalar PNone) (rows t))).
Proof.
  intros Hwf Hcol. unfold iterated.
  rewrite first_rows_loop_run_starts by done. simpl.
  rewrite framed_iterated; [done|].
  apply Forall_forall. intros lr Hlr. apply (proj1 (Forall_forall _ _) Hwf).
  eapply elem_of_sublist; [done|apply run_starts_sublist].
Qed.

Lemma first_rows_without_column (t : DataFrame) :
  "round_num" ∉ columns t →
  first_rows_loop (iterated t) [] (Scalar PNone) =
    match rows t with
    | [] => Ret []
    | _ => Raise (KeyError "round_num")
    end.
Proof.
  intros Hcol. unfold iterated. destruct (rows t) as [|[label r] rest]; [done|].
  cbn [map fst snd first_rows_loop].
  by rewrite series_getitem_row_series, decide_False.
Qed.

(** X13. [get_first_row_of_each_round] is idempotent on tables that keep
    the frame invariant: applied to its own result it returns that result
    again, and a call that raises does so the first time. *)
Theorem get_first_row_of_each_round_idempotent (t : DataFrame) :
  wf t →
  call (λ df, r ← get_first_row_of_each_round df; get_first_row_of_each_round r) t
  = call get_first_row_of_each_round t.
Proof.
  intros Hwf.
  rewrite (call_then get_first_row_of_each_round get_first_row_of_each_round
             (λ t, data ← first_rows_loop (iterated t) [] (Scalar PNone);
                   mret (framed data))
             (λ t, data ← first_rows_loop (iterated t) [] (Scalar PNone);
                   mret (framed data))
             get_first_row_of_each_round_form get_first_row_of_each_round_form).
  rewrite call_get_first_row_of_each_round.
  destruct (decide ("round_num" ∈ columns t)) as [Hcol|Hcol].
  - rewrite (first_rows_of_wf t Hwf Hcol).
    destruct (run_starts (Scalar PNone) (rows t)) as [|lr rs] eqn:Hrs; [done|].
    assert (Hid : run_starts (Scalar PNone) (lr :: rs) = lr :: rs).
    { rewrite <- Hrs. apply run_starts_idem. }
    change (Ret ?out ≫= ?k) with (k out). cbv beta.
    rewrite first_rows_of_wf; cbn [rows columns]; [by rewrite Hid| |done].
    apply Forall_forall. intros x Hx. apply (proj1 (Forall_forall _ _) Hwf).
    eapply elem_of_sublist; [done|]. rewrite <- Hrs. apply run_starts_sublist.
  - rewrite (first_rows_without_column t Hcol).
    by destruct (rows t).
Qed.

Lemma get_first_row_of_each_round_idempotent_witness :
  call (λ df, r ← get_first_row_of_each_round df; get_first_row_of_each_round r)
    rounds_11221
  = call get_first_row_of_each_round rounds_11221.
Proof.
  apply (get_first_row_of_each_round_idempotent rounds_11221).
  repeat constructor; vm_compute; reflexivity.
Defined.



Lemma run_starts_sorted (rows : list (Z * Row)) (ns : list Z) (previous : option Z) :
  map round_num rows = map (λ n, Scalar (PInt n)) ns →
  StronglySorted Z.le ns →
  (∀ p, previous = Some p → Forall (Z.le p) ns) →
  ∃ ms,
    map round_num
      (run_starts (from_option (λ p, Scalar (PInt p)) (Scalar PNone) previous) rows)
    = map (λ n, Scalar (PInt n)) ms
    ∧ StronglySorted Z.lt ms
    ∧ (∀ p, previous = Some p → Forall (Z.lt p) ms)
    ∧ ∀ n, n ∈ ms ↔ n ∈ ns ∧ previous ≠ Some n.
Proof.
  revert ns previous. induction rows as [|lr rows IH]; intros ns previous Hns Hsorted Hprev.
  { destruct ns; [|done]. exists []. simpl. split; [done|].
    split; [constructor|]. split; [by constructor|].
    intros n. rewrite elem_of_nil. tauto. }
  destruct ns as [|n ns]; [done|]. simpl in Hns. injection Hns as Hn Hns.
  apply StronglySorted_inv in Hsorted as [Hsorted Hle].
  destruct (IH ns (Some n) Hns Hsorted) as (ms & Hms & Hlt & Hgt & Hmem).
  { by intros p [= <-]. }
  specialize (Hgt n eq_refl). simpl in Hms.
  cbn [run_starts]. rewrite Hn.
  destruct (decide (previous = Some n)) as [->|Hne].
  - assert (py_ne (Scalar (PInt n)) (from_option (λ p, Scalar (PInt p)) (Scalar PNone)
                                       (Some n)) = false) as ->.
    { unfold py_ne, py_eq. simpl. by rewrite bool_decide_eq_true_2. }
    exists ms. split; [done|]. split; [done|]. split; [by intros p [= <-]|].
    intros x. rewrite Hmem, elem_of_cons. split; [tauto|].
    intros [[->|Hx] Hxn]; [done|tauto].
  - assert (py_ne (Scalar (PInt n)) (from_option (λ p, Scalar (PInt p)) (Scalar PNone)
                                       previous) = true) as ->.
    { unfold py_ne, py_eq. destruct previous as [p|]; simpl; [|done].
      rewrite bool_decide_eq_false_2; [done|]. intros [= ->]. done. }
    exists (n :: ms). cbn [map]. rewrite Hn, Hms. split; [done|].
    split; [by constructor|]. split.
    + intros p ->. specialize (Hprev p eq_refl).
      apply Forall_cons in Hprev as [Hpn _].
      assert (p < n)%Z by (destruct (decide (p = n)) as [->|]; [done|lia]).
      constructor; [done|]. eapply Forall_impl; [exact Hgt|].
      intros m Hm. simpl in Hm. lia.
    + intros x. rewrite !elem_of_cons, Hmem. split.
      * intros [->|[Hx Hxn]]; [tauto|]. split; [tauto|].
        intros ->. specialize (Hprev x eq_refl).
        apply Forall_cons in Hprev as [Hxn' _].
        assert (Hnx : (n < x)%Z).
        { apply (proj1 (Forall_forall _ _) Hgt). by apply Hmem. }
        lia.
      * intros [[->|Hx] Hxp]; [tauto|].
        destruct (decide (x = n)) as [->|Hxn]; [tauto|]. right.
        split; [done|]. by intros [= ->].
Qed.

(** X15. When the rows of each round are contiguous, as in a table whose
    integer round numbers never decrease, [get_first_row_of_each_round]
    returns one row for each round: the round numbers of its rows are
    strictly increasing, hence all different, and they are exactly the
    round numbers that occur in the input. *)
Theorem get_first_row_of_each_round_sorted (t : DataFrame) (ns : list Z) :
  wf t → "round_num" ∈ columns t →
  map round_num (rows t) = map (λ n, Scalar (PInt n)) ns →
  StronglySorted Z.le ns →
  ∃ out ms, call get_first_row_of_each_round t = Ret out
    ∧ map round_num (rows out) = map (λ n, Scalar (PInt n)) ms
    ∧ StronglySorted Z.lt ms
    ∧ ∀ n, n ∈ ms ↔ n ∈ ns.
Proof.
  intros Hwf Hcol Hns Hsorted.
  destruct (run_starts_sorted (rows t) ns None Hns Hsorted) as (ms & Hms & Hlt & _ & Hmem);
    [done|].
  eexists _, ms. split.
  { rewrite call_get_first_row_of_each_round. apply (first_rows_of_wf t Hwf Hcol). }
  simpl. split; [exact Hms|]. split; [done|].
  intros n. rewrite Hmem. split; [tauto|]. intros Hn. split; [done|]. done.
Qed.

Lemma get_first_row_of_each_round_sorted_witness :
  ∃ out ms, call get_first_row_of_each_round three_players = Ret out
    ∧ map round_num (rows out) = map (λ n, Scalar (PInt n)) ms
    ∧ StronglySorted Z.lt ms
    ∧ ∀ n, n ∈ ms ↔ n ∈ [1; 1; 2]%Z.
Proof.
  apply (get_first_row_of_each_round_sorted three_players [1; 1; 2]%Z).
  - repeat constructor; vm_compute; reflexivity.
  - vm_compute. repeat constructor.
  - vm_compute. reflexivity.
  - repeat constructor; lia.
Defined.

(** * Further properties of the polygon filter *)

Lemma select_sublist_mono {A} (f g : A → bool) (l : list A) :
  (∀ x, f x = true → g x = true) →
  select (map f l) l `sublist_of` select (map g l) l.
Proof.
  intros Hfg. induction l as [|x l IH]; simpl; [constructor|].
  destruct (f x) eqn:Hf.
  - rewrite (Hfg x Hf). by constructor.
  - destruct (g x); [by constructor|done].
Qed.

(** X16. Widening the vertical bound of [filter_by_polygon] only adds
    rows: on a table with integer coordinates, the rows returned for a
    bound are a subsequence of the rows returned, with the same polygon,
    for any bound that contains it. *)
Theorem filter_by_polygon_wider_bound (t : DataFrame) (coords polygon : list Coord)
    (z_bound wider : Z * Z) :
  numeric_xyz t → Polygon coords = Ret polygon →
  (wider.1 ≤ z_bound.1)%Z → (z_bound.2 ≤ wider.2)%Z →
  ∃ out out', call (λ df, filter_by_polygon df coords z_bound) t = Ret out
    ∧ call (λ df, filter_by_polygon df coords wider) t = Ret out'
    ∧ rows out `sublist_of` rows out'.
Proof.
  intros Hnum Hpoly Hlo Hhi. eexists _, _.
  split; [by apply call_filter_by_polygon_numeric|].
  split; [by apply call_filter_by_polygon_numeric|].
  simpl. apply select_sublist_mono. intros lr. unfold kept.
  destruct (position lr) as [[[a b] c]|]; [|done].
  intros [[Hl Hh]%andb_prop Hin]%andb_prop.
  apply Z.leb_le in Hl, Hh. rewrite Hin, andb_true_r.
  apply andb_true_intro. split; apply Z.leb_le; lia.
Qed.

Lemma filter_by_polygon_wider_bound_witness :
  ∃ out out', call (λ df, filter_by_polygon df square (0, 10)%Z) spots = Ret out
    ∧ call (λ df, filter_by_polygon df square (0, 20)%Z) spots = Ret out'
    ∧ rows out `sublist_of` rows out'.
Proof.
  apply (filter_by_polygon_wider_bound spots square (square ++ [(0, 0)%Z])
           (0, 10)%Z (0, 20)%Z).
  - exact numeric_xyz_spots.
  - vm_compute. reflexivity.
  - simpl. lia.
  - simpl. lia.
Defined.

(** * Chains of calls from [get_df] *)

Lemma perform_extends (op : operation) (s : Store) (df : loc) (t : DataFrame) :
  s !! df = Some t →
  ∃ r k, perform op df s = (r, s ++ k)
    ∧ ∀ l, r = Ret l → is_Some ((s ++ k) !! l).
Proof.
  intros Hdf.
  assert (Hnew : ∀ out, ∃ r k, (Ret (length s), s ++ [out]) = (r, s ++ k)
            ∧ ∀ l, r = Ret l → is_Some ((s ++ k) !! l)).
  { intros out. exists (Ret (length s)), [out]. split; [done|].
    intros l [= <-]. rewrite lookup_fresh. by eexists. }
  assert (Hfail : ∀ e, ∃ (r : outcome loc) k, (Raise e, s) = (r, s ++ k)
            ∧ ∀ l, r = Ret l → is_Some ((s ++ k) !! l)).
  { intros e. exists (Raise e), []. by rewrite app_nil_r. }
  destruct op as [cols|f| |]; simpl.
  - rewrite (remove_unneeded_cols_run _ _ _ Hdf). apply Hnew.
  - rewrite (apply_filter_run _ _ _ _ Hdf). destruct (filter_mask f t); auto.
  - rewrite (extract_weapon_classes_run _ _ _ Hdf).
    destruct (weapon_classes_loop _ _); [apply Hnew|].
    exists (Raise e), [t]. by split.
  - rewrite (get_first_row_of_each_round_run _ _ _ Hdf).
    destruct (first_rows_loop _ _ _); auto.
Qed.

Lemma pipeline_extends (ops : list operation) (s : Store) (df : loc) (t : DataFrame) :
  s !! df = Some t → ∃ r k, pipeline ops df s = (r, s ++ k).
Proof.
  revert s df t. induction ops as [|op ops IH]; intros s df t Hdf.
  - exists (Ret df), []. by rewrite app_nil_r.
  - cbn [pipeline]. unfold mbind, M_bind.
    destruct (perform_extends op s df t Hdf) as (r & k & -> & Hr).
    destruct r as [l|e].
    + destruct (Hr l eq_refl) as [t' Hl].
      destruct (IH (s ++ k) l t' Hl) as (r' & k' & ->).
      exists r', (k ++ k'). by rewrite app_assoc.
    + by exists (Raise e), k.
Qed.

(** X17. [get_df] returns the table the object holds, itself and not a
    copy, and no chain of operations started from it touches that table:
    after the chain, whether it returned or raised part-way, every table
    of the store is as it was and [get_df] still yields the same table. *)
Theorem get_df_survives_pipeline (self : ProcessGameState) (ops : list operation)
    (s : Store) (t : DataFrame) :
  s !! self_df self = Some t →
  (df ← get_df self; load df) s = (Ret t, s)
  ∧ ∃ r s', (df ← get_df self; pipeline ops df) s = (r, s')
      ∧ s `prefix_of` s'
      ∧ (df ← get_df self; load df) s' = (Ret t, s').
Proof.
  intros Hdf. unfold get_df, mbind, M_bind, mret, M_ret.
  split; [by apply load_run|].
  destruct (pipeline_extends ops s (self_df self) t Hdf) as (r & k & ->).
  exists r, (s ++ k). split; [done|]. split; [by exists k|].
  apply load_run. by apply lookup_app_l_Some.
Qed.

Lemma get_df_survives_pipeline_witness :
  (df ← get_df (mkState 0); load df) [three_players] = (Ret three_players, [three_players])
  ∧ ∃ r s', (df ← get_df (mkState 0);
             pipeline [Filter (ByTeam "A"); SelectColumns ["team"; "round_num"];
                       FirstRowPerRound] df) [three_players] = (r, s')
      ∧ [three_players] `prefix_of` s'
      ∧ (df ← get_df (mkState 0); load df) s' = (Ret three_players, s').
Proof.
  apply (get_df_survives_pipeline (mkState 0)
           [Filter (ByTeam "A"); SelectColumns ["team"; "round_num"]; FirstRowPerRound]
           [three_players] three_players).
  reflexivity.
Defined.

(** * Selecting columns and filtering *)

Lemma mapM_fmap_ext {A B C} (f : B → outcome C) (g h : A → B) (l : list A) :
  (∀ x, f (g x) = f (h x)) → mapM f (map g l) = mapM f (map h l).
Proof.
  intros Hgh. induction l as [|x l IH]; [done|].
  cbn [map]. by rewrite !mapM_cons, Hgh, IH.
Qed.

Lemma cell_filter_keys (labels : gset string) (r : Row) (c : string) :
  c ∉ labels → cell (filter (λ kv : string * value, kv.1 ∉ labels) r) c = cell r c.
Proof. intros Hc. unfold cell. by rewrite lookup_filter_keys, decide_False. Qed.

Lemma column_cells_drop_columns (labels : gset string) (t : DataFrame) (key : string) :
  key ∉ labels → column_cells (drop_columns labels t) key = column_cells t key.
Proof.
  intros Hkey. unfold column_cells, drop_columns. simpl.
  rewrite <- list_fmap_compose. apply list_fmap_ext. intros i [label r] _. simpl.
  by apply cell_filter_keys.
Qed.

Lemma elem_of_columns_drop (labels : gset string) (t : DataFrame) (key : string) :
  key ∉ labels → key ∈ columns (drop_columns labels t) ↔ key ∈ columns t.
Proof. intros Hkey. simpl. rewrite list_elem_of_filter. tauto. Qed.

Lemma decide_columns_drop {A} (labels : gset string) (t : DataFrame) (key : string)
    (x y : A) :
  key ∉ labels →
  (if decide (key ∈ columns (drop_columns labels t)) then x else y)
  = (if decide (key ∈ columns t) then x else y).
Proof. intros Hkey. apply decide_ext. by apply elem_of_columns_drop. Qed.

(** A filter computes the same mask once columns it does not read are
    dropped. *)
Lemma filter_mask_drop_columns (f : filter_op) (labels : gset string) (t : DataFrame) :
  Forall (λ c, c ∉ labels) (filter_columns f) →
  filter_mask f (drop_columns labels t) = filter_mask f t.
Proof.
  destruct f as [team|side|area_names|coords z_bound]; cbn [filter_columns filter_mask].
  - intros [Hkey _]%Forall_cons.
    by rewrite decide_columns_drop, column_cells_drop_columns.
  - intros [Hkey _]%Forall_cons.
    by rewrite decide_columns_drop, column_cells_drop_columns.
  - intros [Hkey _]%Forall_cons.
    by rewrite decide_columns_drop, column_cells_drop_columns.
  - intros [Hx [Hy [Hz _]%Forall_cons]%Forall_cons]%Forall_cons.
    destruct (Polygon coords) as [polygon|]; [|done]. cbn [mbind outcome_bind].
    rewrite decide_columns_drop, column_cells_drop_columns by done.
    case_decide; [|done].
    destruct (series_between _ _ _); [|done]. cbn [mbind outcome_bind].
    assert (mapM (row_in_polygon polygon) (iterated (drop_columns labels t)).*2
            = mapM (row_in_polygon polygon) (iterated t).*2) as ->; [|done].
    assert (Hcols : ∀ key, key ∉ labels →
              key ∈ columns (drop_columns labels t) ↔ key ∈ columns t)
      by (intros key Hkey; by apply elem_of_columns_drop).
    unfold iterated.
    remember (columns (drop_columns labels t)) as cols' eqn:Hcols'. clear Hcols'.
    cbn [rows drop_columns].
    rewrite <- !list_fmap_compose.
    apply (mapM_fmap_ext (row_in_polygon polygon)). intros [label r]. simpl.
    unfold row_in_polygon. rewrite !series_getitem_row_series.
    rewrite (decide_ext _ _ _ _ (Hcols "x" Hx)), (decide_ext _ _ _ _ (Hcols "y" Hy)).
    by rewrite !cell_filter_keys.
Qed.

(** X18. Dropping columns a filter does not read does not change what it
    keeps: when the names kept include the column of the filter ([x], [y]
    and [z] for the polygon filter), selecting the columns and then
    filtering gives the same table, or the same exception, as filtering
    and then selecting the columns. *)
Theorem select_then_filter (f : filter_op) (keep : list string) (t : DataFrame) :
  Forall (λ c, c ∈ keep) (filter_columns f) →
  call (λ df, r ← remove_unneeded_cols df keep; apply_filter f r) t
  = call (λ df, r ← apply_filter f df; remove_unneeded_cols r keep) t.
Proof.
  intros Hkeep.
  rewrite (call_then (λ df, remove_unneeded_cols df keep) (apply_filter f)
             (λ t, Ret (drop_columns (list_to_set (columns t) ∖ list_to_set keep) t))
             (λ t, mask ← filter_mask f t; mret (filtered t mask))
             (remove_unneeded_cols_form keep) (apply_filter_form f)).
  rewrite (call_then (apply_filter f) (λ df, remove_unneeded_cols df keep)
             (λ t, mask ← filter_mask f t; mret (filtered t mask))
             (λ t, Ret (drop_columns (list_to_set (columns t) ∖ list_to_set keep) t))
             (apply_filter_form f) (remove_unneeded_cols_form keep)).
  simpl. rewrite filter_mask_drop_columns.
  2:{ eapply Forall_impl; [exact Hkeep|]. intros c Hc. simpl in Hc.
      rewrite elem_of_difference, !elem_of_list_to_set. tauto. }
  destruct (filter_mask f t) as [mask|]; [|done]. simpl. f_equal.
  unfold drop_columns, filtered. simpl. f_equal.
  symmetry. apply (select_fmap (A:=Z * Row)).
Qed.

Lemma select_then_filter_witness :
  call (λ df, r ← remove_unneeded_cols df ["team"; "round_num"];
              apply_filter (ByTeam "A") r) three_players
  = call (λ df, r ← apply_filter (ByTeam "A") df;
                remove_unneeded_cols r ["team"; "round_num"]) three_players.
Proof.
  apply (select_then_filter (ByTeam "A") ["team"; "round_num"] three_players).
  repeat constructor.
Defined.
